(** * blog-search.py: scrape pipeline, link classifier and retriever

    A shallow embedding of [src/blog-search.py] (a command line tool that
    scrapes blog links, stores one title embedding per URL in a document
    store and answers queries by vector search) together with the
    properties of its specification.

    Python [str] values are sequences of Unicode code points and are
    modelled as [list N]; the calls the script makes into Python's
    standard library ([str] methods, [urllib.parse]) are transcribed from
    CPython 3.11; the remote collaborators (browser, embedding provider,
    document store, search index) are oracles indexed by a logical
    clock. *)

From Stdlib Require Import ZArith NArith QArith Qround Qabs Qpower Lqa.
From Stdlib Require Import Ascii String List Bool Lia.
From stdpp Require Import base option list gmap strings.

Close Scope Q_scope.
Local Open Scope nat_scope.

(** ** Python strings *)

Module Str.

(** A Python [str]: its code points, in order. *)
Abbreviation str := (list N).

(** The code points of an ASCII literal. *)
Definition u (s : string) : str :=
  List.map N_of_ascii (list_ascii_of_string s).

Definition ch (a : ascii) : N := N_of_ascii a.

Arguments u : simpl never.
Arguments ch : simpl never.

(** [s.startswith(p)] *)
Fixpoint startswith (p s : str) : bool :=
  match p, s with
  | [], _ => true
  | _ :: _, [] => false
  | a :: p', b :: s' => N.eqb a b && startswith p' s'
  end.

(** [sub in s], for a substring [sub] *)
Fixpoint contains (sub s : str) : bool :=
  startswith sub s ||
  match s with
  | [] => false
  | _ :: s' => contains sub s'
  end.

(** [c in s], for a single character [c] *)
Definition has (c : N) (s : str) : bool := existsb (N.eqb c) s.

(** [s.find(c)]: the first index of [c], [None] for Python's [-1]. *)
Fixpoint find (c : N) (s : str) : option nat :=
  match s with
  | [] => None
  | x :: s' => if N.eqb c x then Some 0 else option_map S (find c s')
  end.

(** [s.find(c, start)] *)
Definition find_from (c : N) (start : nat) (s : str) : option nat :=
  option_map (Nat.add start) (find c (drop start s)).

(** [s.rfind(c)]: the last index of [c]. *)
Fixpoint rfind (c : N) (s : str) : option nat :=
  match s with
  | [] => None
  | x :: s' =>
      match rfind c s' with
      | Some i => Some (S i)
      | None => if N.eqb c x then Some 0 else None
      end
  end.

(** [s.split(c)]: always at least one piece. *)
Fixpoint split (c : N) (s : str) : list str :=
  match s with
  | [] => [[]]
  | x :: s' =>
      if N.eqb c x then [] :: split c s'
      else match split c s' with
           | [] => [[x]]
           | w :: ws => (x :: w) :: ws
           end
  end.

(** [s.split(c, 1)] when [c in s]: the text before and after the first [c]. *)
Definition split1 (c : N) (s : str) : str * str :=
  match find c s with
  | Some i => (take i s, drop (S i) s)
  | None => (s, [])
  end.

(** [s.partition(c)]: (before, separator found, after). *)
Definition partition (c : N) (s : str) : str * bool * str :=
  match find c s with
  | Some i => (take i s, true, drop (S i) s)
  | None => (s, false, [])
  end.

(** [s.rpartition(c)[2]]: the text after the last [c], or all of [s]. *)
Definition rpartition_last (c : N) (s : str) : str :=
  match rfind c s with
  | Some i => drop (S i) s
  | None => s
  end.

(** [sep.join(parts)] *)
Fixpoint join (sep : str) (parts : list str) : str :=
  match parts with
  | [] => []
  | [p] => p
  | p :: ps => p ++ sep ++ join sep ps
  end.

(** [s.replace(c, "")] *)
Definition remove_char (c : N) (s : str) : str :=
  List.filter (fun x => negb (N.eqb c x)) s.

(** [s.lstrip(chars)] and [s.strip(chars)], for a set of characters
    given as a predicate. *)
Fixpoint lstrip (p : N -> bool) (s : str) : str :=
  match s with
  | [] => []
  | x :: s' => if p x then lstrip p s' else s
  end.

Definition rstrip (p : N -> bool) (s : str) : str :=
  rev (lstrip p (rev s)).

Definition strip (p : N -> bool) (s : str) : str :=
  rstrip p (lstrip p s).

(** [s.isascii()] *)
Definition isascii (s : str) : bool := forallb (fun x => N.ltb x 128) s.

Definition is_upper (x : N) : bool := N.leb 65 x && N.leb x 90.
Definition is_lower (x : N) : bool := N.leb 97 x && N.leb x 122.
Definition is_digit (x : N) : bool := N.leb 48 x && N.leb x 57.

(** [c.isascii() and c.isalpha()] *)
Definition is_ascii_alpha (x : N) : bool := is_upper x || is_lower x.

(** [str.lower] on a string of ASCII characters. *)
Definition ascii_lower (s : str) : str :=
  List.map (fun x => if is_upper x then N.add x 32 else x) s.

(** String equality, [a == b]. *)
Definition eqb (a b : str) : bool := bool_decide (a = b).

End Str.

Import Str.

(** ** Exceptions and results *)

(** The exceptions the script distinguishes: the store's "document not
    found", the [ValueError] of [urllib.parse], and any other
    [Exception], identified by an opaque tag. All three are caught by
    [except Exception]. *)
Inductive exn : Type :=
| DocumentNotFoundException
| ValueError
| Exception (tag : nat).

(** The outcome of a call that may raise. *)
Inductive result (A : Type) : Type :=
| Ok (a : A)
| Raise (e : exn).
Arguments Ok {A} a.
Arguments Raise {A} e.

Definition rbind {A B} (r : result A) (k : A -> result B) : result B :=
  match r with
  | Ok a => k a
  | Raise e => Raise e
  end.

(** ** What the standard library needs from outside

    [str.lower] on arbitrary text and NFKC normalisation come from
    Python's Unicode database, the validity of a bracketed host from its
    [ipaddress] module. *)
Class PyLib : Type := {
  str_lower : str -> str;
  nfkc : str -> str;
  check_bracketed_host : str -> bool
}.

(** ** [urllib.parse] (CPython 3.11, [Lib/urllib/parse.py]) *)

Module UrlParse.

Definition uses_relative : list str :=
  List.map u ["" ; "ftp"; "http"; "gopher"; "nntp"; "imap";
              "wais"; "file"; "https"; "shttp"; "mms";
              "prospero"; "rtsp"; "rtspu"; "sftp";
              "svn"; "svn+ssh"; "ws"; "wss"]%string.

Definition uses_netloc : list str :=
  List.map u [""; "ftp"; "http"; "gopher"; "nntp"; "telnet";
              "imap"; "wais"; "file"; "mms"; "https"; "shttp";
              "snews"; "prospero"; "rtsp"; "rtspu"; "rsync";
              "svn"; "svn+ssh"; "sftp"; "nfs"; "git"; "git+ssh";
              "ws"; "wss"]%string.

Definition uses_params : list str :=
  List.map u [""; "ftp"; "hdl"; "prospero"; "http"; "imap";
              "https"; "shttp"; "rtsp"; "rtspu"; "sip"; "sips";
              "mms"; "sftp"; "tel"]%string.

(** [s in table] *)
Definition mem (s : str) (table : list str) : bool :=
  existsb (Str.eqb s) table.

(** [c in scheme_chars] *)
Definition in_scheme_chars (x : N) : bool :=
  is_lower x || is_upper x || is_digit x ||
  N.eqb x (ch "+") || N.eqb x (ch "-") || N.eqb x (ch ".").

(** [c in _WHATWG_C0_CONTROL_OR_SPACE] *)
Definition is_c0_or_space (x : N) : bool := N.leb x 32.

(** The loop over [_UNSAFE_URL_BYTES_TO_REMOVE]: tab, CR, LF. *)
Definition remove_unsafe (s : str) : str :=
  remove_char 10 (remove_char 13 (remove_char 9 s)).

Record SplitResult : Type := mkSplit {
  s_scheme : str; s_netloc : str; s_path : str;
  s_query : str; s_fragment : str
}.

Record ParseResult : Type := mkParse {
  scheme : str; netloc : str; path : str;
  params : str; query : str; fragment : str
}.

(** [_splitnetloc(url, start)] *)
Definition splitnetloc (url : str) (start : nat) : str * str :=
  let delim :=
    fold_left
      (fun d c => match find_from c start url with
                  | Some w => Nat.min d w
                  | None => d
                  end)
      [ch "/"; ch "?"; ch "#"] (length url) in
  (drop start (take delim url), drop delim url).

Section WithLib.
Context {L : PyLib}.

(** [_checknetloc(netloc)]: [true] when it returns, [false] when it
    raises [ValueError]. *)
Definition checknetloc (netloc : str) : bool :=
  if match netloc with [] => true | _ => isascii netloc end then true
  else
    let n := remove_char (ch "?") (remove_char (ch "#")
               (remove_char (ch ":") (remove_char (ch "@") netloc))) in
    let netloc2 := nfkc n in
    if Str.eqb n netloc2 then true
    else negb (existsb (fun c => has c netloc2)
                 [ch "/"; ch "?"; ch "#"; ch "@"; ch ":"]).

(** [_check_bracketed_netloc(netloc)]: [true] when it returns, [false]
    when it raises [ValueError]. *)
Definition check_bracketed_netloc (netloc : str) : bool :=
  let hostname_and_port := rpartition_last (ch "@") netloc in
  let '(before_bracket, have_open_br, bracketed) :=
    partition (ch "[") hostname_and_port in
  if have_open_br then
    match before_bracket with
    | _ :: _ => false
    | [] =>
        let '(hostname, _, port) := partition (ch "]") bracketed in
        match port with
        | _ :: _ =>
            if negb (startswith (u ":") port) then false
            else check_bracketed_host hostname
        | [] => check_bracketed_host hostname
        end
    end
  else
    let '(hostname, _, _) := partition (ch ":") hostname_and_port in
    check_bracketed_host hostname.

(** The scheme detection of [urlsplit]: [(scheme, rest of url)]. *)
Definition split_scheme (url scheme : str) : str * str :=
  match find (ch ":") url with
  | Some (S i') =>
      let i := S i' in
      if is_ascii_alpha (hd 0%N url) && forallb in_scheme_chars (take i url)
      then (ascii_lower (take i url), drop (S i) url)
      else (scheme, url)
  | _ => (scheme, url)
  end.

(** [urlsplit(url, scheme)] with [allow_fragments=True]. *)
Definition urlsplit (url scheme : str) : result SplitResult :=
  let url := lstrip is_c0_or_space url in
  let scheme := strip is_c0_or_space scheme in
  let url := remove_unsafe url in
  let scheme := remove_unsafe scheme in
  let '(scheme, url) := split_scheme url scheme in
  rbind
    (if startswith (u "//") url then
       let '(netloc, url) := splitnetloc url 2 in
       if (has (ch "[") netloc && negb (has (ch "]") netloc)) ||
          (has (ch "]") netloc && negb (has (ch "[") netloc))
       then Raise ValueError
       else if has (ch "[") netloc && has (ch "]") netloc
                 && negb (check_bracketed_netloc netloc)
       then Raise ValueError
       else Ok (netloc, url)
     else Ok ([], url))
    (fun '(netloc, url) =>
       let '(url, fragment) :=
         if has (ch "#") url then split1 (ch "#") url else (url, []) in
       let '(url, query) :=
         if has (ch "?") url then split1 (ch "?") url else (url, []) in
       if checknetloc netloc
       then Ok (mkSplit scheme netloc url query fragment)
       else Raise ValueError).

(** [_splitparams(url)]; it is only called when [';' in url]. *)
Definition splitparams (url : str) : str * str :=
  match (match rfind (ch "/") url with
         | Some r => find_from (ch ";") r url
         | None => find (ch ";") url
         end) with
  | Some i => (take i url, drop (S i) url)
  | None => (url, [])
  end.

(** [urlparse(url, scheme)] *)
Definition urlparse (url scheme : str) : result ParseResult :=
  rbind (urlsplit url scheme) (fun r =>
    let '(url, params) :=
      if mem (s_scheme r) uses_params && has (ch ";") (s_path r)
      then splitparams (s_path r)
      else (s_path r, []) in
    Ok (mkParse (s_scheme r) (s_netloc r) url params
          (s_query r) (s_fragment r))).

End WithLib.

(** [bool(s)] for a string: non-empty. *)
Definition nonempty (s : str) : bool :=
  match s with [] => false | _ => true end.

(** [urlunsplit((scheme, netloc, url, query, fragment))] *)
Definition urlunsplit (scheme netloc url query fragment : str) : str :=
  let url :=
    if nonempty netloc ||
       (nonempty scheme && mem scheme uses_netloc
        && negb (Str.eqb (take 2 url) (u "//")))
    then
      let url :=
        if nonempty url && negb (Str.eqb (take 1 url) (u "/"))
        then u "/" ++ url else url in
      u "//" ++ netloc ++ url
    else url in
  let url := if nonempty scheme then scheme ++ u ":" ++ url else url in
  let url := if nonempty query then url ++ u "?" ++ query else url in
  let url := if nonempty fragment then url ++ u "#" ++ fragment else url in
  url.

(** [urlunparse((scheme, netloc, url, params, query, fragment))] *)
Definition urlunparse (p : ParseResult) : str :=
  let url :=
    if nonempty (params p) then path p ++ u ";" ++ params p else path p in
  urlunsplit (scheme p) (netloc p) url (query p) (fragment p).

(** [segments[1:-1] = filter(None, segments[1:-1])] *)
Definition filter_middle (segments : list str) : list str :=
  match segments with
  | [] => []
  | first :: rest =>
      match rev rest with
      | [] => [first]
      | final :: middle_rev =>
          first :: List.filter nonempty (rev middle_rev) ++ [final]
      end
  end.

(** The loop of [urljoin] over the segments: [..] pops (an empty stack
    stays empty), [.] is dropped, anything else is appended. *)
Definition resolve_segments (segments : list str) : list str :=
  fold_left
    (fun resolved_path seg =>
       if Str.eqb seg (u "..") then removelast resolved_path
       else if Str.eqb seg (u ".") then resolved_path
       else resolved_path ++ [seg])
    segments [].

(** The path merge at the end of [urljoin]. *)
Definition merge_path (bpath path : str) : str :=
  let base_parts := Str.split (ch "/") bpath in
  let base_parts :=
    if nonempty (List.last base_parts []) then removelast base_parts
    else base_parts in
  let segments :=
    if Str.eqb (take 1 path) (u "/") then Str.split (ch "/") path
    else filter_middle (base_parts ++ Str.split (ch "/") path) in
  let resolved_path := resolve_segments segments in
  let resolved_path :=
    if Str.eqb (List.last segments []) (u ".")
       || Str.eqb (List.last segments []) (u "..")
    then resolved_path ++ [[]] else resolved_path in
  let joined := join (u "/") resolved_path in
  if nonempty joined then joined else u "/".

Section WithLib.
Context {L : PyLib}.

(** [urljoin(base, url)] *)
Definition urljoin (base url : str) : result str :=
  if negb (nonempty base) then Ok url
  else if negb (nonempty url) then Ok base
  else
    rbind (urlparse base []) (fun b =>
    rbind (urlparse url (scheme b)) (fun r =>
      if negb (Str.eqb (scheme r) (scheme b))
         || negb (mem (scheme r) uses_relative)
      then Ok url
      else if mem (scheme r) uses_netloc && nonempty (netloc r)
      then Ok (urlunparse r)
      else
        let netloc' :=
          if mem (scheme r) uses_netloc then netloc b else netloc r in
        if negb (nonempty (path r)) && negb (nonempty (params r))
        then
          let query' :=
            if negb (nonempty (query r)) then query b else query r in
          Ok (urlunparse
                (mkParse (scheme r) netloc' (path b) (params b)
                   query' (fragment r)))
        else
          Ok (urlunparse
                (mkParse (scheme r) netloc' (merge_path (path b) (path r))
                   (params r) (query r) (fragment r))))).

End WithLib.

End UrlParse.

(** ** Data of the script *)

(** A JSON value of a stored document: text or a vector of floats. *)
Inductive value : Type :=
| VStr (s : str)
| VVector (v : list Q).

(** A document: the Python [dict] the store keeps under a key. *)
Abbreviation doc := (gmap string value).

(** An [<a>] element of the parsed page: [anchor.get("href")] (absent
    is [None]), [anchor.get_text(strip=True)], and whether it matches
    the selector [a.link_title]. *)
Record anchor : Type := mkAnchor {
  a_href : option str;
  a_text : str;
  a_link_title : bool
}.

(** A row of the search result: [row.id] and [row.score]. *)
Record row : Type := mkRow { row_id : str; row_score : Q }.

(** What [scope.search] answers with: the rows that [result.rows()]
    yields, the exception that ends the iteration early if there is one,
    and [result.metadata().metrics().total_rows()]. *)
Record search_result : Type := mkSearchResult {
  sr_rows : list row;
  sr_rows_end : option exn;
  sr_total_rows : result nat
}.

(** Every [print] of the script, with the values it interpolates. *)
Inductive msg : Type :=
| MsgWebDriverFailed (e : exn)
| MsgAccessing (url : option str)
| MsgWaiting
| MsgSearchingLinks
| MsgFoundTitleLinks (n : nat)
| MsgFoundPotential (title url : str)
| MsgFetchError (e : exn)
| MsgStartingScrape
| MsgFoundLinks (n : nat)
| MsgChecking (i n : nat) (title : str)
| MsgNewPost
| MsgStored (title : str)
| MsgFailed (title : str) (e : exn)
| MsgSkipping (title : str)
| MsgSearchResults
| MsgResult (title url : value) (score : Q)
| MsgCouldNotFetch (id : str)
| MsgError (e : exn)
| MsgTotal (n : nat)
| MsgSearchFailed (e : exn)
| MsgHelp.

(** What a run does that can be seen from outside: its output and its
    calls to the remote collaborators. *)
Inductive event : Type :=
| Print (m : msg)
| CallChrome
| CallDriverGet (url : option str)
| CallPageSource
| CallEmbed (text : str)
| CallGet (key : str)
| CallUpsert (key : str) (d : doc)
| CallSearch (vector : list Q).

(** ** The remote collaborators

    Each call reads the answer of the outside world at the current tick
    of a logical clock.  A lookup fault is never the store's "not
    found": that answer is given exactly when the key is absent.  A
    failed upsert says whether the write was applied all the same. *)
Class Services : Type := {
  chrome_start : nat -> option exn;
  driver_get : nat -> option exn;
  page_source : nat -> result (list anchor);
  embeddings_create : nat -> str -> result (list Q);
  get_fault : nat -> str -> option nat;
  upsert_fault : nat -> str -> option (exn * bool);
  scope_search : nat -> list Q -> result search_result
}.

(** The state a run works on: the documents of the collection and the
    clock. *)
Record world : Type := mkWorld {
  store : gmap str doc;
  clock : nat
}.

(** ** A small monad: state, exceptions and an event log *)

Record run (A : Type) : Type := mkRun {
  res : result A;
  final : world;
  events : list event
}.
Arguments mkRun {A} res final events.
Arguments res {A} r.
Arguments final {A} r.
Arguments events {A} r.

Definition M (A : Type) : Type := world -> run A.

Definition ret {A} (a : A) : M A := fun w => mkRun (Ok a) w [].

Definition raise {A} (e : exn) : M A := fun w => mkRun (Raise e) w [].

Definition bind {A B} (m : M A) (k : A -> M B) : M B := fun w =>
  let r := m w in
  match res r with
  | Ok a =>
      let r' := k a (final r) in
      mkRun (res r') (final r') (events r ++ events r')
  | Raise e => mkRun (Raise e) (final r) (events r)
  end.

(** [try: m  except Exception as e: h e] -- what [m] did before it
    raised stays done. *)
Definition try_except {A} (m : M A) (h : exn -> M A) : M A := fun w =>
  let r := m w in
  match res r with
  | Ok a => r
  | Raise e =>
      let r' := h e (final r) in
      mkRun (res r') (final r') (events r ++ events r')
  end.

Declare Scope prog_scope.
Delimit Scope prog_scope with prog.
Notation "x <- m ;; k" := (bind m (fun x => k))
  (at level 100, m at next level, k at level 200, right associativity)
  : prog_scope.
Notation "m ;; k" := (bind m (fun _ => k))
  (at level 100, k at level 200, right associativity) : prog_scope.
Local Open Scope prog_scope.

Definition emit (e : event) : M unit := fun w => mkRun (Ok tt) w [e].

Definition print (m : msg) : M unit := emit (Print m).

(** The current tick; the clock moves on. *)
Definition tick : M nat := fun w =>
  mkRun (Ok (clock w)) (mkWorld (store w) (S (clock w))) [].

Definition get_store : M (gmap str doc) := fun w => mkRun (Ok (store w)) w [].

Definition put_doc (key : str) (d : doc) : M unit := fun w =>
  mkRun (Ok tt) (mkWorld (<[key := d]> (store w)) (clock w)) [].

Definition lift {A} (r : result A) : M A :=
  match r with
  | Ok a => ret a
  | Raise e => raise e
  end.

(** ** Float arithmetic

    A float is the rational it denotes; an operation is the exact one
    followed by rounding to the nearest binary64 value. *)

(** Rounding to the nearest integer, ties to the even one. *)
Definition round_half_even (q : Q) : Z :=
  let f := Qfloor q in
  match Qcompare (q - inject_Z f)%Q (1 # 2)%Q with
  | Lt => f
  | Gt => (f + 1)%Z
  | Eq => if Z.even f then f else (f + 1)%Z
  end.

(** The exponent of the binary64 value nearest to [a > 0]: the one that
    puts the significand [a / 2^e] between [2^52] and [2^53], but not
    below the least exponent [-1074] of the subnormal values. *)
Definition float_exponent (a : Q) : Z :=
  Z.max (Z.log2 (Qfloor (a * 2 ^ 1127)%Q) - 1179) (-1074).

(** The binary64 value nearest to [a > 0], ties to even. *)
Definition nearest (a : Q) : Q :=
  (inject_Z (round_half_even (a * 2 ^ (- float_exponent a)))
   * 2 ^ float_exponent a)%Q.

(** Rounding to the nearest binary64 value, ties to even; overflow to
    infinity is left out. *)
Definition binary64 (q : Q) : Q :=
  match Qnum q with
  | Z0 => 0%Q
  | _ =>
      let a := Qabs q in
      let e := float_exponent a in
      (inject_Z (Z.sgn (Qnum q) * round_half_even (a * 2 ^ (- e)))
       * 2 ^ e)%Q
  end.

(** [x * y] *)
Definition fmul (x y : Q) : Q := binary64 (x * y)%Q.

(** [round(x, 2)]: the decimal with two places nearest to [x], ties to
    even, as a float. *)
Definition py_round2 (x : Q) : Q :=
  binary64 (inject_Z (round_half_even (x * 100)%Q) / 100)%Q.

(** A library instance that is exact on ASCII text: ASCII lower-casing,
    NFKC leaving the text as it is, every bracketed host refused. *)
Definition ascii_lib : PyLib :=
  {| str_lower := ascii_lower;
     nfkc := fun s => s;
     check_bracketed_host := fun _ => false |}.

(** ** The script *)

(** The module-level configuration: [IFRAME_URL] is
    [os.getenv("BLOG_IFRAME_URL")], [None] when the variable is unset. *)
Class Config : Type := {
  IFRAME_URL : option str;
  BASE_URL : str
}.

(** Lines 41-43: [BASE_URL] is [f"{PARSED.scheme}://{PARSED.netloc}"].
    [urlparse(None)] answers with empty [bytes] fields, which an
    f-string prints as [b'']; a [ValueError] here ends the program
    before [main]. *)
Definition module_init {L : PyLib} (iframe_url : option str) : result Config :=
  match iframe_url with
  | None => Ok {| IFRAME_URL := None; BASE_URL := u "b''://b''" |}
  | Some url =>
      rbind (UrlParse.urlparse url []) (fun PARSED =>
        Ok {| IFRAME_URL := Some url;
              BASE_URL := UrlParse.scheme PARSED ++ u "://"
                          ++ UrlParse.netloc PARSED |})
  end.

(** The command line after [parser.parse_args()]. *)
Record args : Type := mkArgs {
  arg_scrape : bool;
  arg_search : option str
}.

Section Script.
Context {L : PyLib} {Sv : Services} {C : Config}.

Definition start_headless_browser : M unit :=
  t <- tick ;;
  emit CallChrome ;;
  match chrome_start t with
  | None => ret tt
  | Some e => print (MsgWebDriverFailed e) ;; raise e
  end.

(** The three [continue] guards of the loop over the anchors, after
    [not href] has been checked for an absent attribute. *)
Definition skip_anchor (href title : str) : bool :=
  (negb (UrlParse.nonempty href) || negb (UrlParse.nonempty title))
  || (length title <? 5)
  || (startswith (u "#") href || startswith (u "javascript:") href).

(** Lines 95-98: [full_url]. *)
Definition resolve (href : str) : result str :=
  if negb (startswith (u "http://") href || startswith (u "https://") href)
  then UrlParse.urljoin BASE_URL href
  else Ok href.

(** Line 101: the blog-post test on [full_url]. *)
Definition is_blog_post (full_url : str) : bool :=
  contains (u "blog") (str_lower full_url)
  && (contains (u "post") (str_lower full_url)
      || contains (u "entry") (str_lower full_url)
      || contains (u "article") (str_lower full_url)).

(** Lines 82-103: the loop over [all_anchors], with [links] so far. *)
Fixpoint classify_anchors (all_anchors : list anchor)
    (links : list (str * str)) : M (list (str * str)) :=
  match all_anchors with
  | [] => ret links
  | anchor :: rest =>
      match a_href anchor with
      | None => classify_anchors rest links
      | Some href =>
          let title := a_text anchor in
          if skip_anchor href title then classify_anchors rest links
          else
            full_url <- lift (resolve href) ;;
            if is_blog_post full_url then
              print (MsgFoundPotential title full_url) ;;
              classify_anchors rest (links ++ [(full_url, title)])
            else classify_anchors rest links
      end
  end.

(** Lines 61-105: the body of the [try] of [fetch_blog_links]. *)
Definition discover_links : M (list (str * str)) :=
  start_headless_browser ;;
  print (MsgAccessing IFRAME_URL) ;;
  t <- tick ;;
  emit (CallDriverGet IFRAME_URL) ;;
  match driver_get t with Some e => raise e | None => ret tt end ;;
  print MsgWaiting ;;
  t' <- tick ;;
  emit CallPageSource ;;
  all_anchors <- lift (page_source t') ;;
  print MsgSearchingLinks ;;
  print (MsgFoundTitleLinks (length (List.filter a_link_title all_anchors))) ;;
  classify_anchors all_anchors [].

Definition fetch_blog_links : M (list (str * str)) :=
  try_except discover_links (fun e => print (MsgFetchError e) ;; ret []).

Definition generate_embedding (text : str) : M (list Q) :=
  t <- tick ;;
  emit (CallEmbed text) ;;
  lift (embeddings_create t text).

(** [collection.get(key)] *)
Definition collection_get (key : str) : M doc :=
  t <- tick ;;
  emit (CallGet key) ;;
  match get_fault t key with
  | Some tag => raise (Exception tag)
  | None =>
      s <- get_store ;;
      match s !! key with
      | Some d => ret d
      | None => raise DocumentNotFoundException
      end
  end.

(** [collection.upsert(key, d)] *)
Definition collection_upsert (key : str) (d : doc) : M unit :=
  t <- tick ;;
  emit (CallUpsert key d) ;;
  match upsert_fault t key with
  | None => put_doc key d
  | Some (e, applied) =>
      (if applied then put_doc key d else ret tt) ;; raise e
  end.

Definition document_exists (url : str) : M bool :=
  try_except
    (collection_get url ;; ret true)
    (fun e =>
       match e with
       | DocumentNotFoundException => ret false
       | _ => raise e
       end).

(** The [dict] built by [store_embedding]. *)
Definition blog_post_doc (url title : str) (embedding : list Q) : doc :=
  <["type"%string := VStr (u "blog_post")]>
    (<["url"%string := VStr url]>
       (<["title"%string := VStr title]>
          (<["embedding"%string := VVector embedding]> ∅))).

Definition store_embedding (url title : str) (embedding : list Q) : M unit :=
  collection_upsert url (blog_post_doc url title embedding).

(** Lines 143-153: the body of the loop for item [i] of [n]. *)
Definition process_link (n i : nat) (url title : str) : M unit :=
  print (MsgChecking i n title) ;;
  found <- document_exists url ;;
  if negb found then
    print MsgNewPost ;;
    try_except
      (embedding <- generate_embedding title ;;
       store_embedding url title embedding ;;
       print (MsgStored title))
      (fun e => print (MsgFailed title e))
  else print (MsgSkipping title).

(** Line 142: the loop over [enumerate(links, start=1)]; [n] is
    [len(links)] of the whole list. *)
Fixpoint process_links (n i : nat) (links : list (str * str)) : M unit :=
  match links with
  | [] => ret tt
  | (url, title) :: rest =>
      process_link n i url title ;;
      process_links n (S i) rest
  end.

Definition scrape_and_store : M unit :=
  print MsgStartingScrape ;;
  links <- fetch_blog_links ;;
  print (MsgFoundLinks (length links)) ;;
  process_links (length links) 1 links.

(** [d.get(field, default)] *)
Definition doc_get (d : doc) (field : string) (default : value) : value :=
  match d !! field with
  | Some v => v
  | None => default
  end.

(** Lines 177-185: the body of the loop for one row. *)
Definition show_row (r : row) : M unit :=
  try_except
    (d <- collection_get (row_id r) ;;
     let title := doc_get d "title" (VStr (u "N/A")) in
     let url := doc_get d "url" (VStr (u "N/A")) in
     let score := py_round2 (fmul (row_score r) 100) in
     print (MsgResult title url score))
    (fun inner_ex =>
       print (MsgCouldNotFetch (row_id r)) ;;
       print (MsgError inner_ex)).

(** Line 176: the loop over [result.rows()]. *)
Fixpoint show_rows (rows : list row) : M unit :=
  match rows with
  | [] => ret tt
  | r :: rest => show_row r ;; show_rows rest
  end.

Definition search_blog_posts (query : str) : M unit :=
  embedding <- generate_embedding query ;;
  try_except
    (t <- tick ;;
     emit (CallSearch embedding) ;;
     result <- lift (scope_search t embedding) ;;
     print MsgSearchResults ;;
     show_rows (sr_rows result) ;;
     match sr_rows_end result with Some e => raise e | None => ret tt end ;;
     total_rows <- lift (sr_total_rows result) ;;
     print (MsgTotal total_rows))
    (fun ex => print (MsgSearchFailed ex)).

Definition main (a : args) : M unit :=
  if arg_scrape a then scrape_and_store
  else
    match arg_search a with
    | Some q =>
        if UrlParse.nonempty q then search_blog_posts q else print MsgHelp
    | None => print MsgHelp
    end.

End Script.

(** The exit status of the process: an exception that leaves [main]
    ends it with a traceback and status 1. *)
Definition exit_status (r : run unit) : nat :=
  match res r with
  | Ok _ => 0
  | Raise _ => 1
  end.

(** ** Reading a run

    The per-item outcome of the orchestrator is what it prints for the
    item; a write is a call of [collection.upsert]. *)

Inductive outcome : Type := Stored | Skipped | Failed.

Definition outcome_of (e : event) : option outcome :=
  match e with
  | Print (MsgStored _) => Some Stored
  | Print (MsgSkipping _) => Some Skipped
  | Print (MsgFailed _ _) => Some Failed
  | _ => None
  end.

Definition outcomes (evs : list event) : list outcome :=
  omap outcome_of evs.

Definition is_write (e : event) : bool :=
  match e with
  | CallUpsert _ _ => true
  | _ => false
  end.

Definition writes (evs : list event) : list event :=
  List.filter is_write evs.

(** Calls to the embedding provider and to the vector search. *)
Definition is_embed_or_search (e : event) : bool :=
  match e with
  | CallEmbed _ | CallSearch _ => true
  | _ => false
  end.

(** ** Notions the properties are stated with *)

(** The events of link discovery: its prints and its calls to the
    browser. *)
Definition is_fetch_event (e : event) : bool :=
  match e with
  | Print (MsgWebDriverFailed _) | Print (MsgAccessing _) | Print MsgWaiting
  | Print MsgSearchingLinks | Print (MsgFoundTitleLinks _)
  | Print (MsgFoundPotential _ _) | Print (MsgFetchError _)
  | CallChrome | CallDriverGet _ | CallPageSource => true
  | _ => false
  end.

(** A computation that leaves the store alone, lets the clock move
    forward only, and shows nothing but events of link discovery. *)
Definition quiet {A : Type} (m : M A) : Prop :=
  forall w,
    store (final (m w)) = store w /\ clock w <= clock (final (m w)) /\
    forallb is_fetch_event (events (m w)) = true.

(** [url] is [origin] followed by nothing, or by a path, a query or a
    fragment: its scheme and network location are those of [origin]. *)
Definition anchored_at (origin url : str) : bool :=
  startswith origin url &&
  match drop (length origin) url with
  | [] => true
  | c :: _ => N.eqb c (ch "/") || N.eqb c (ch "?") || N.eqb c (ch "#")
  end.

(** A character that [urlsplit] does not remove: not a tab, a carriage
    return or a line feed. *)
Definition safe_char (x : N) : bool :=
  negb (N.eqb 10 x) && negb (N.eqb 13 x) && negb (N.eqb 9 x).

Section Notions.
Context {L : PyLib} {Sv : Services} {C : Config}.

(** The two bracket tests of [urlsplit] on a network location: [true]
    when one of them raises. *)
Definition brackets_refused (n : str) : bool :=
  ((has (ch "[") n && negb (has (ch "]") n))
   || (has (ch "]") n && negb (has (ch "[") n)))
  || (has (ch "[") n && has (ch "]") n
      && negb (UrlParse.check_bracketed_netloc n)).

(** What one item of the batch does, by the answers of the outside
    world: the run of [process_link], case by case. *)
Definition link_run (n i : nat) (url title : str) (w : world) : run unit :=
  let checking := Print (MsgChecking i n title) in
  match get_fault (clock w) url with
  | Some tag =>
      mkRun (Raise (Exception tag)) (mkWorld (store w) (S (clock w)))
        [checking; CallGet url]
  | None =>
      match store w !! url with
      | Some _ =>
          mkRun (Ok tt) (mkWorld (store w) (S (clock w)))
            [checking; CallGet url; Print (MsgSkipping title)]
      | None =>
          match embeddings_create (S (clock w)) title with
          | Raise e =>
              mkRun (Ok tt) (mkWorld (store w) (S (S (clock w))))
                [checking; CallGet url; Print MsgNewPost; CallEmbed title;
                 Print (MsgFailed title e)]
          | Ok v =>
              let d := blog_post_doc url title v in
              let pre :=
                [checking; CallGet url; Print MsgNewPost; CallEmbed title;
                 CallUpsert url d] in
              match upsert_fault (S (S (clock w))) url with
              | None =>
                  mkRun (Ok tt)
                    (mkWorld (<[url := d]> (store w)) (S (S (S (clock w)))))
                    (pre ++ [Print (MsgStored title)])
              | Some (e, applied) =>
                  mkRun (Ok tt)
                    (mkWorld
                       (if applied then <[url := d]> (store w) else store w)
                       (S (S (S (clock w)))))
                    (pre ++ [Print (MsgFailed title e)])
              end
          end
      end
  end.

(** The configured base is an origin that [urlparse] reads back as
    such: a scheme that allows relative references and a network
    location. *)
Definition base_is_origin (b : UrlParse.ParseResult) : Prop :=
  UrlParse.urlparse BASE_URL [] = Ok b /\
  BASE_URL = UrlParse.scheme b ++ u "://" ++ UrlParse.netloc b /\
  UrlParse.nonempty (UrlParse.scheme b) = true /\
  UrlParse.mem (UrlParse.scheme b) UrlParse.uses_relative = true /\
  UrlParse.nonempty (UrlParse.netloc b) = true.

(** The classifier in the words of the specification: the anchor is
    emitted as [(url, title)] when its href is present and non-empty,
    its text is non-empty and at least 5 characters long, the href
    begins neither with [#] nor with [javascript:], [url] is the href
    resolved against the base, and [url] in lower case contains "blog"
    and one of "post", "entry", "article". *)
Definition spec_emits (a : anchor) (link : str * str) : Prop :=
  exists href,
    a_href a = Some href /\
    href <> [] /\
    a_text a <> [] /\ 5 <= length (a_text a) /\
    startswith (u "#") href = false /\
    startswith (u "javascript:") href = false /\
    resolve href = Ok (fst link) /\
    snd link = a_text a /\
    contains (u "blog") (str_lower (fst link)) = true /\
    (contains (u "post") (str_lower (fst link)) = true \/
     contains (u "entry") (str_lower (fst link)) = true \/
     contains (u "article") (str_lower (fst link)) = true).

(** Resolving the anchor's href does not raise, when the loop gets as
    far as resolving it. *)
Definition resolvable (a : anchor) : Prop :=
  forall href,
    a_href a = Some href -> skip_anchor href (a_text a) = false ->
    exists full_url, resolve href = Ok full_url.

End Notions.

(** ** Notions for the retriever and for the accounting of a run *)

(** The keys looked up, the texts embedded and the keys written, in the
    order of the calls. *)
Definition get_keys (evs : list event) : list str :=
  omap (fun e => match e with CallGet k => Some k | _ => None end) evs.

Definition embed_texts (evs : list event) : list str :=
  omap (fun e => match e with CallEmbed t => Some t | _ => None end) evs.

Definition upsert_keys (evs : list event) : list str :=
  omap (fun e => match e with CallUpsert k _ => Some k | _ => None end) evs.

Definition is_search (e : event) : bool :=
  match e with
  | CallSearch _ => true
  | _ => false
  end.

(** The result lines of a search, in the order they are printed. *)
Definition shown (evs : list event) : list (value * value * Q) :=
  omap (fun e => match e with
                 | Print (MsgResult title url score) => Some (title, url, score)
                 | _ => None
                 end) evs.

(** The hits reported as not fetched, in the order they are printed. *)
Definition not_fetched (evs : list event) : list str :=
  omap (fun e => match e with
                 | Print (MsgCouldNotFetch id) => Some id
                 | _ => None
                 end) evs.

(** The progress lines of a scrape run. *)
Definition checking (evs : list event) : list (nat * nat * str) :=
  omap (fun e => match e with
                 | Print (MsgChecking i n title) => Some (i, n, title)
                 | _ => None
                 end) evs.

(** A computation that leaves the store as it is and shows only events
    that pass [ok]. *)
Definition keeps_store {A : Type} (ok : event -> bool) (m : M A) : Prop :=
  forall w,
    store (final (m w)) = store w /\ forallb ok (events (m w)) = true.

(** Events of a computation that only reads: no write to the store and
    nothing of link discovery -- no browser, no page. *)
Definition reads_only (e : event) : bool :=
  negb (is_write e) && negb (is_fetch_event e).

(** The number of items of a batch that were not skipped. *)
Definition not_skipped (os : list outcome) : nat :=
  length (List.filter (fun o => match o with Skipped => false | _ => true end)
            os).

(** The number of items of a batch that were stored. *)
Definition stored_count (os : list outcome) : nat :=
  length (List.filter (fun o => match o with Stored => true | _ => false end)
            os).

(** Every record of the store is a blog post filed under its own URL. *)
Definition well_formed (s : gmap str doc) : Prop :=
  forall k d,
    s !! k = Some d ->
    d !! "type"%string = Some (VStr (u "blog_post")) /\
    d !! "url"%string = Some (VStr k).

(** What a search prints after the hits: the total of the service, or
    the report of what ended the search. *)
Definition search_tail (result : search_result) : list event :=
  match sr_rows_end result, sr_total_rows result with
  | Some e, _ => [Print (MsgSearchFailed e)]
  | None, Raise e => [Print (MsgSearchFailed e)]
  | None, Ok n => [Print (MsgTotal n)]
  end.

Section RetrieverNotions.
Context {Sv : Services}.

(** What the join of the hit at rank [k] gives, for a search that starts
    its lookups at the world [w]: the line to show, or nothing when the
    lookup fails or the document is gone. *)
Definition join_at (w : world) (k : nat) (r : row)
  : option (value * value * Q) :=
  match get_fault (clock w + k) (row_id r) with
  | Some _ => None
  | None =>
      match store w !! row_id r with
      | Some d =>
          Some (doc_get d "title" (VStr (u "N/A")),
                doc_get d "url" (VStr (u "N/A")),
                py_round2 (fmul (row_score r) 100))
      | None => None
      end
  end.

End RetrieverNotions.

(** ** A world for examples: nothing fails, one fixed page *)

Definition quiet_services (page : list anchor) : Services :=
  {| chrome_start := fun _ => None;
     driver_get := fun _ => None;
     page_source := fun _ => Ok page;
     embeddings_create := fun _ text => Ok [(1 # 2)%Q];
     get_fault := fun _ _ => None;
     upsert_fault := fun _ _ => None;
     scope_search := fun _ _ => Ok (mkSearchResult [] None (Ok 0)) |}.

Definition x_com : Config :=
  {| IFRAME_URL := Some (u "https://x.com/PostList.naver");
     BASE_URL := u "https://x.com" |}.

Definition empty_world : world := mkWorld ∅ 0.

(** The anchors of the scenario of the specification. *)
Definition scenario_page : list anchor :=
  [ mkAnchor (Some (u "/blog/post/42")) (u "My New Post") true;
    mkAnchor (Some (u "#")) (u "x") false;
    mkAnchor (Some (u "/other")) (u "short") false ].

(** A world where calls fail at chosen ticks. *)
Definition faulty_services (page : list anchor)
    (browser : nat -> option exn) (lookups : nat -> option nat)
    (embeds : nat -> option exn) (upserts : nat -> option (exn * bool))
  : Services :=
  {| chrome_start := browser;
     driver_get := fun _ => None;
     page_source := fun _ => Ok page;
     embeddings_create := fun t text =>
       match embeds t with
       | Some e => Raise e
       | None => Ok [(1 # 2)%Q]
       end;
     get_fault := fun t _ => lookups t;
     upsert_fault := fun t _ => upserts t;
     scope_search := fun _ _ => Ok (mkSearchResult [] None (Ok 0)) |}.

Definition never {A : Type} : nat -> option A := fun _ => None.

Definition at_tick {A : Type} (t0 : nat) (a : A) : nat -> option A :=
  fun t => if Nat.eqb t t0 then Some a else None.

(** A page with three posts. *)
Definition three_posts : list anchor :=
  [ mkAnchor (Some (u "/blog/post/1")) (u "First post") true;
    mkAnchor (Some (u "/blog/post/2")) (u "Second post") true;
    mkAnchor (Some (u "https://x.com/blog/entry/3")) (u "Third post") true ].

Definition three_links : list (str * str) :=
  [ (u "https://x.com/blog/post/1", u "First post");
    (u "https://x.com/blog/post/2", u "Second post");
    (u "https://x.com/blog/entry/3", u "Third post") ].

(** A page whose second anchor has an href that [urllib.parse] refuses:
    a network location with an opening bracket only. *)
Definition broken_page : list anchor :=
  [ mkAnchor (Some (u "/blog/post/42")) (u "My New Post") true;
    mkAnchor (Some (u "//[")) (u "Broken link") false ].

(** A page with a protocol-relative link to another host. *)
Definition foreign_page : list anchor :=
  [ mkAnchor (Some (u "//evil.example/blog/post-1")) (u "Elsewhere") false ].

(** The record of the first post, stored earlier under another title. *)
Definition old_record : doc :=
  <["type"%string := VStr (u "blog_post")]>
    (<["url"%string := VStr (u "https://x.com/blog/post/1")]>
       (<["title"%string := VStr (u "Old title")]>
          (<["embedding"%string := VVector [(1 # 4)%Q]]> ∅))).

Definition old_world : world :=
  mkWorld {[ u "https://x.com/blog/post/1" := old_record ]} 0.

(** A page that shows the same post twice, under two titles. *)
Definition repeated_page : list anchor :=
  [ mkAnchor (Some (u "/blog/post/1")) (u "First post") true;
    mkAnchor (Some (u "/blog/post/1")) (u "First post again") true ].

(** Two hits of a search: a stored post, and a key that is not in the
    store. *)
Definition two_hits : list row :=
  [ mkRow (u "https://x.com/blog/post/1") (9 # 10);
    mkRow (u "https://x.com/blog/gone") (1 # 2) ].

(** A world where the vector search answers with [rows]. *)
Definition search_services (rows : list row) : Services :=
  {| chrome_start := fun _ => None;
     driver_get := fun _ => None;
     page_source := fun _ => Ok [];
     embeddings_create := fun _ text => Ok [(1 # 2)%Q];
     get_fault := fun _ _ => None;
     upsert_fault := fun _ _ => None;
     scope_search := fun _ _ =>
       Ok (mkSearchResult rows None (Ok (length rows))) |}.

(** A world where the embedding provider refuses every call. *)
Definition no_embeddings (page : list anchor) : Services :=
  faulty_services page never never (fun _ => Some ValueError) never.

(** A world where the vector search is down. *)
Definition search_down : Services :=
  {| chrome_start := fun _ => None;
     driver_get := fun _ => None;
     page_source := fun _ => Ok [];
     embeddings_create := fun _ text => Ok [(1 # 2)%Q];
     get_fault := fun _ _ => None;
     upsert_fault := fun _ _ => None;
     scope_search := fun _ _ => Raise (Exception 503) |}.

(** A world where the browser does not start. *)
Definition no_browser (page : list anchor) : Services :=
  faulty_services page (fun _ => Some (Exception 1)) never never never.

(** * Properties *)

(** Replacing the literals of the goal by their code points. *)
Ltac lits :=
  repeat match goal with
  | |- context [u ?s] =>
      let v := eval vm_compute in (u s) in change (u s) with v
  | |- context [ch ?c] =>
      let v := eval vm_compute in (ch c) in change (ch c) with v
  end.

(** Unfolding the monad down to runs. *)
Ltac run_unfold :=
  unfold bind, try_except, ret, raise, emit, print, tick, get_store,
    put_doc, lift in *.

Section Store.
Context {L : PyLib} {Sv : Services} {C : Config}.

(** A lookup is one tick and one event; it never changes the store. *)
Lemma collection_get_run (key : str) (w : world) :
  collection_get key w =
  mkRun
    (match get_fault (clock w) key with
     | Some tag => Raise (Exception tag)
     | None =>
         match store w !! key with
         | Some d => Ok d
         | None => Raise DocumentNotFoundException
         end
     end)
    (mkWorld (store w) (S (clock w))) [CallGet key].
Proof.
  unfold collection_get. run_unfold. simpl.
  destruct (get_fault (clock w) key); simpl; [reflexivity|].
  destruct (store w !! key); reflexivity.
Qed.

Lemma document_exists_run (url : str) (w : world) :
  document_exists url w =
  mkRun
    (match get_fault (clock w) url with
     | Some tag => Raise (Exception tag)
     | None => Ok (bool_decide (is_Some (store w !! url)))
     end)
    (mkWorld (store w) (S (clock w))) [CallGet url].
Proof.
  unfold document_exists, try_except, bind.
  rewrite !collection_get_run. simpl.
  destruct (get_fault (clock w) url); simpl; [reflexivity|].
  destruct (store w !! url) eqn:E; reflexivity.
Qed.

(** C4: the existence check answers [False] exactly when the lookup
    reports "not found" (and does not raise then), answers [True] when
    the lookup succeeds, and lets every other failure of the lookup
    reach its caller as that same exception, which is not the
    "not found" answer. *)
Theorem document_exists_contract (url : str) (w : world) :
  (res (document_exists url w) = Ok false <->
   res (collection_get url w) = Raise DocumentNotFoundException) /\
  (forall d, res (collection_get url w) = Ok d ->
             res (document_exists url w) = Ok true) /\
  (forall e, res (collection_get url w) = Raise e ->
             e <> DocumentNotFoundException ->
             res (document_exists url w) = Raise e) /\
  (forall b, res (document_exists url w) = Ok b ->
             store (final (document_exists url w)) = store w).
Proof.
  rewrite document_exists_run, collection_get_run. simpl.
  destruct (get_fault (clock w) url) as [tag|]; simpl.
  - repeat split; try discriminate.
    intros e [= <-] _. reflexivity.
  - destruct (store w !! url) as [d|] eqn:E; simpl.
    + repeat split; try discriminate; reflexivity.
    + repeat split; try discriminate; try reflexivity.
      intros e [= <-] H. congruence.
Qed.

End Store.

(** ** Runs of the monad *)

Lemma outcomes_app (a b : list event) :
  outcomes (a ++ b) = outcomes a ++ outcomes b.
Proof. unfold outcomes. apply omap_app. Qed.

Lemma writes_app (a b : list event) :
  writes (a ++ b) = writes a ++ writes b.
Proof. unfold writes. apply List.filter_app. Qed.

(** ** The orchestrator, one item *)

Section Orchestrator.
Context {L : PyLib} {Sv : Services} {C : Config}.

Lemma collection_upsert_run (key : str) (d : doc) (w : world) :
  collection_upsert key d w =
  mkRun
    (match upsert_fault (clock w) key with
     | None => Ok tt
     | Some (e, _) => Raise e
     end)
    (mkWorld
       (match upsert_fault (clock w) key with
        | Some (_, false) => store w
        | _ => <[key := d]> (store w)
        end)
       (S (clock w)))
    [CallUpsert key d].
Proof.
  unfold collection_upsert. run_unfold. simpl.
  destruct (upsert_fault (clock w) key) as [[e []]|]; reflexivity.
Qed.

Lemma process_link_run (n i : nat) (url title : str) (w : world) :
  process_link n i url title w = link_run n i url title w.
Proof.
  unfold process_link, link_run, bind at 1 2. simpl.
  rewrite document_exists_run. simpl.
  destruct (get_fault (clock w) url) as [tag|]; simpl; [reflexivity|].
  destruct (store w !! url) as [d|] eqn:E; simpl; [reflexivity|].
  unfold try_except, generate_embedding, store_embedding, bind.
  simpl. unfold lift.
  destruct (embeddings_create (S (clock w)) title) as [v|e]; simpl;
    [|reflexivity].
  unfold collection_upsert. run_unfold. simpl.
  destruct (upsert_fault (S (S (clock w))) url) as [[e []]|]; reflexivity.
Qed.

End Orchestrator.

(** ** Link discovery leaves the store alone *)

Lemma fetch_events_silent (evs : list event) :
  forallb is_fetch_event evs = true ->
  outcomes evs = [] /\ writes evs = [] /\
  List.filter is_embed_or_search evs = [] /\
  (forall k, CallGet k ∉ evs) /\ (forall k d, CallUpsert k d ∉ evs).
Proof.
  induction evs as [|e evs IH]; simpl.
  - intros _. repeat split; intros; apply not_elem_of_nil.
  - intros H. apply andb_true_iff in H as [He H].
    destruct (IH H) as (Ho & Hw & Hs & Hg & Hu).
    unfold outcomes in *. simpl.
    destruct e as [m| | | | | | |]; try discriminate;
      try destruct m; try discriminate; simpl;
      (repeat split; [assumption..| |]);
      intros; (intros Hin; apply elem_of_cons in Hin as [Heq|Hin];
               [discriminate| eapply Hg + eapply Hu; eassumption]).
Qed.

Section Discovery.
Context {L : PyLib} {Sv : Services} {C : Config}.

Lemma quiet_ret {A : Type} (a : A) : quiet (ret a).
Proof. intros w. simpl. auto. Qed.

Lemma quiet_raise {A : Type} (e : exn) : quiet (@raise A e).
Proof. intros w. simpl. auto. Qed.

Lemma quiet_lift {A : Type} (r : result A) : quiet (lift r).
Proof. destruct r; [apply quiet_ret|apply quiet_raise]. Qed.

Lemma quiet_tick : quiet tick.
Proof. intros w. simpl. auto. Qed.

Lemma quiet_emit (e : event) : is_fetch_event e = true -> quiet (emit e).
Proof. intros H w. simpl. rewrite H. auto. Qed.

Lemma quiet_bind {A B : Type} (m : M A) (k : A -> M B) :
  quiet m -> (forall a, quiet (k a)) -> quiet (bind m k).
Proof.
  intros Hm Hk w. unfold bind.
  destruct (Hm w) as (Hs & Hc & He).
  destruct (res (m w)) as [a|e]; simpl; [|auto].
  destruct (Hk a (final (m w))) as (Hs' & Hc' & He').
  rewrite forallb_app, He, He', Hs', Hs. repeat split. lia.
Qed.

Lemma quiet_try_except {A : Type} (m : M A) (h : exn -> M A) :
  quiet m -> (forall e, quiet (h e)) -> quiet (try_except m h).
Proof.
  intros Hm Hh w. unfold try_except.
  destruct (Hm w) as (Hs & Hc & He).
  destruct (res (m w)) as [a|e]; simpl; [auto|].
  destruct (Hh e (final (m w))) as (Hs' & Hc' & He').
  rewrite forallb_app, He, He', Hs', Hs. repeat split. lia.
Qed.

(** Closing a goal [quiet m] along the structure of [m]. *)
Ltac quiet_steps :=
  repeat first
    [ apply quiet_ret | apply quiet_raise | apply quiet_lift
    | apply quiet_tick | apply quiet_emit; reflexivity
    | apply quiet_bind; [|intros ?]
    | apply quiet_try_except; [|intros ?]
    | match goal with
      | |- quiet (match ?x with _ => _ end) => destruct x
      end ].

Lemma classify_anchors_quiet (all_anchors : list anchor)
    (links : list (str * str)) :
  quiet (classify_anchors all_anchors links).
Proof.
  revert links. induction all_anchors as [|a rest IH]; intros links; simpl.
  - apply quiet_ret.
  - destruct (a_href a) as [href|]; [|apply IH].
    destruct (skip_anchor href (a_text a)); [apply IH|].
    apply quiet_bind; [apply quiet_lift|]. intros full_url.
    destruct (is_blog_post full_url); [|apply IH].
    apply quiet_bind; [apply quiet_emit; reflexivity|]. intros _. apply IH.
Qed.

Lemma discover_links_quiet : quiet discover_links.
Proof.
  unfold discover_links, start_headless_browser, print.
  quiet_steps. apply classify_anchors_quiet.
Qed.

(** Link discovery always answers with a list: it catches whatever its
    body raises. *)
Lemma fetch_blog_links_quiet (w : world) :
  let r := fetch_blog_links w in
  (exists links, res r = Ok links) /\
  store (final r) = store w /\ clock w <= clock (final r) /\
  forallb is_fetch_event (events r) = true.
Proof.
  assert (Hq : quiet fetch_blog_links).
  { unfold fetch_blog_links, print. apply quiet_try_except.
    - apply discover_links_quiet.
    - intros e. quiet_steps. }
  split; [|apply Hq].
  unfold fetch_blog_links, try_except.
  destruct (res (discover_links w)) as [links|e] eqn:E; simpl; eauto.
Qed.

(** A scrape run is the discovery followed by the loop over what it
    found. *)
Lemma scrape_and_store_run (w : world) (links : list (str * str)) :
  res (fetch_blog_links w) = Ok links ->
  let rf := fetch_blog_links w in
  let rl := process_links (length links) 1 links (final rf) in
  scrape_and_store w =
  mkRun (res rl) (final rl)
    (Print MsgStartingScrape
       :: events rf ++ Print (MsgFoundLinks (length links)) :: events rl).
Proof.
  intros H. unfold scrape_and_store, bind, print, emit. simpl.
  rewrite H. reflexivity.
Qed.

End Discovery.

(** ** The orchestrator, the whole batch *)

(** Splitting every answer of the outside world for one item. *)
Ltac link_cases w url title :=
  rewrite process_link_run; unfold link_run;
  destruct (get_fault (clock w) url) as [?tag|] eqn:?Hfault;
  [|destruct (store w !! url) as [?d|] eqn:?Hlook;
    [|destruct (embeddings_create (S (clock w)) title) as [?v|?e] eqn:?Hemb;
      [destruct (upsert_fault (S (S (clock w))) url)
         as [[?e [|]]|] eqn:?Hups|]]];
  simpl.

Section Batch.
Context {L : PyLib} {Sv : Services} {C : Config}.

Lemma process_links_cons (n i : nat) (url title : str)
    (rest : list (str * str)) (w : world) :
  process_links n i ((url, title) :: rest) w =
  bind (process_link n i url title)
       (fun _ => process_links n (S i) rest) w.
Proof. reflexivity. Qed.

(** The loop over a list in two parts: the first part, then -- when it
    has not raised -- the second, numbered on from where the first
    ended. *)
Lemma process_links_app (n i : nat) (done rest : list (str * str))
    (w : world) :
  process_links n i (done ++ rest) w =
  let r0 := process_links n i done w in
  match res r0 with
  | Ok _ =>
      let r' := process_links n (i + length done) rest (final r0) in
      mkRun (res r') (final r') (events r0 ++ events r')
  | Raise e => mkRun (Raise e) (final r0) (events r0)
  end.
Proof.
  cbv zeta. revert i w.
  induction done as [|[url title] done IH]; intros i w.
  - cbn [app length process_links ret res final events].
    rewrite Nat.add_0_r. destruct (process_links n i rest w). reflexivity.
  - change (((url, title) :: done) ++ rest)
      with ((url, title) :: (done ++ rest)).
    rewrite !process_links_cons. unfold bind.
    destruct (process_link n i url title w) as [[[]|e] w1 evs];
      cbn [res final events]; [|reflexivity].
    rewrite IH. cbn [length]. rewrite Nat.add_succ_r.
    destruct (res (process_links n (S i) done w1));
      cbn [res final events]; rewrite ?app_assoc; reflexivity.
Qed.

(** Frame: a record that is in the store stays as it is, and its key is
    never written. *)
Lemma process_links_frame (n i : nat) (links : list (str * str)) (w : world)
    (key : str) (d : doc) :
  store w !! key = Some d ->
  let r := process_links n i links w in
  store (final r) !! key = Some d /\
  (forall d', CallUpsert key d' ∉ events r).
Proof.
  revert i w. induction links as [|[url title] rest IH]; intros i w Hk.
  - simpl. split; [assumption|]. intros d'. apply not_elem_of_nil.
  - rewrite process_links_cons. unfold bind.
    assert (Hne : store w !! url = None -> url <> key) by congruence.
    link_cases w url title.
    + split; [assumption|]. intros d' Hin.
      repeat (apply elem_of_cons in Hin as [Hin|Hin]; [discriminate|]).
      inversion Hin.
    + destruct (IH (S i) (mkWorld (store w) (S (clock w))) Hk) as [H1 H2].
      split; [assumption|]. intros d' Hin.
      repeat (apply elem_of_cons in Hin as [Hin|Hin]; [discriminate|]).
      eapply H2; eassumption.
    + assert (Hk' : <[url := blog_post_doc url title v]> (store w) !! key
                    = Some d)
        by (rewrite lookup_insert_ne by auto; assumption).
      destruct (IH (S i) (mkWorld _ (S (S (S (clock w))))) Hk') as [H1 H2].
      split; [assumption|]. intros d' Hin.
      repeat (apply elem_of_cons in Hin as [Hin|Hin];
              [try discriminate|]).
      * injection Hin as <- _. specialize (Hne eq_refl). congruence.
      * eapply H2; eassumption.
    + assert (Hk' : store w !! key = Some d) by assumption.
      destruct (IH (S i) (mkWorld (store w) (S (S (S (clock w))))) Hk')
        as [H1 H2].
      split; [assumption|]. intros d' Hin.
      repeat (apply elem_of_cons in Hin as [Hin|Hin];
              [try discriminate|]).
      * injection Hin as <- _. specialize (Hne eq_refl). congruence.
      * eapply H2; eassumption.
    + assert (Hk' : <[url := blog_post_doc url title v]> (store w) !! key
                    = Some d)
        by (rewrite lookup_insert_ne by auto; assumption).
      destruct (IH (S i) (mkWorld _ (S (S (S (clock w))))) Hk') as [H1 H2].
      split; [assumption|]. intros d' Hin.
      repeat (apply elem_of_cons in Hin as [Hin|Hin];
              [try discriminate|]).
      * injection Hin as <- _. specialize (Hne eq_refl). congruence.
      * eapply H2; eassumption.
    + destruct (IH (S i) (mkWorld (store w) (S (S (clock w)))) Hk)
        as [H1 H2].
      split; [assumption|]. intros d' Hin.
      repeat (apply elem_of_cons in Hin as [Hin|Hin]; [discriminate|]).
      eapply H2; eassumption.
Qed.

(** Isolation: when every lookup is answered, the loop reaches its end
    and reports one outcome per item, whatever the embedding provider
    and the writes do. *)
Lemma process_links_completes (n i : nat) (links : list (str * str))
    (w : world) :
  (forall t url, clock w <= t -> get_fault t url = None) ->
  let r := process_links n i links w in
  res r = Ok tt /\ length (outcomes (events r)) = length links.
Proof.
  revert i w. induction links as [|[url title] rest IH]; intros i w Hq.
  - simpl. split; reflexivity.
  - rewrite process_links_cons. unfold bind.
    link_cases w url title.
    + rewrite Hq in Hfault by lia. discriminate.
    + destruct (IH (S i) (mkWorld (store w) (S (clock w)))) as [-> ->];
        [intros; apply Hq; simpl in *; lia|]. split; reflexivity.
    + destruct (IH (S i) (mkWorld (<[url := blog_post_doc url title v]>
                                      (store w)) (S (S (S (clock w))))))
        as [-> ->]; [intros; apply Hq; simpl in *; lia|]. split; reflexivity.
    + destruct (IH (S i) (mkWorld (store w) (S (S (S (clock w))))))
        as [-> ->]; [intros; apply Hq; simpl in *; lia|]. split; reflexivity.
    + destruct (IH (S i) (mkWorld (<[url := blog_post_doc url title v]>
                                      (store w)) (S (S (S (clock w))))))
        as [-> ->]; [intros; apply Hq; simpl in *; lia|]. split; reflexivity.
    + destruct (IH (S i) (mkWorld (store w) (S (S (clock w)))))
        as [-> ->]; [intros; apply Hq; simpl in *; lia|]. split; reflexivity.
Qed.

(** The only exception that leaves the loop is a lookup fault, and then
    some item has no outcome. *)
Lemma process_links_raises (n i : nat) (links : list (str * str))
    (w : world) (e : exn) :
  let r := process_links n i links w in
  res r = Raise e ->
  (exists t url tag,
     clock w <= t /\ get_fault t url = Some tag /\ e = Exception tag) /\
  length (outcomes (events r)) < length links.
Proof.
  revert i w. induction links as [|[url title] rest IH]; intros i w.
  - simpl. discriminate.
  - rewrite process_links_cons. unfold bind.
    link_cases w url title.
    + intros [= <-]. split; [|lia]. exists (clock w), url, tag. auto.
    + intros H.
      assert (H' : res (process_links n (S i) rest
                          (mkWorld (store w) (S (clock w)))) = Raise e)
        by (destruct (res (process_links _ _ _ _)); congruence).
      apply IH in H' as [(t & k & tag & Ht & Hf & ->) Hlen]. simpl in Ht.
      split; [exists t, k, tag; repeat split; auto; lia|]. simpl. lia.
    + intros H.
      assert (H' : res (process_links n (S i) rest
                          (mkWorld (<[url := blog_post_doc url title v]>
                                      (store w)) (S (S (S (clock w))))))
                   = Raise e)
        by (destruct (res (process_links _ _ _ _)); congruence).
      apply IH in H' as [(t & k & tag & Ht & Hf & ->) Hlen]. simpl in Ht.
      split; [exists t, k, tag; repeat split; auto; lia|]. simpl. lia.
    + intros H.
      assert (H' : res (process_links n (S i) rest
                          (mkWorld (store w) (S (S (S (clock w))))))
                   = Raise e)
        by (destruct (res (process_links _ _ _ _)); congruence).
      apply IH in H' as [(t & k & tag & Ht & Hf & ->) Hlen]. simpl in Ht.
      split; [exists t, k, tag; repeat split; auto; lia|]. simpl. lia.
    + intros H.
      assert (H' : res (process_links n (S i) rest
                          (mkWorld (<[url := blog_post_doc url title v]>
                                      (store w)) (S (S (S (clock w))))))
                   = Raise e)
        by (destruct (res (process_links _ _ _ _)); congruence).
      apply IH in H' as [(t & k & tag & Ht & Hf & ->) Hlen]. simpl in Ht.
      split; [exists t, k, tag; repeat split; auto; lia|]. simpl. lia.
    + intros H.
      assert (H' : res (process_links n (S i) rest
                          (mkWorld (store w) (S (S (clock w))))) = Raise e)
        by (destruct (res (process_links _ _ _ _)); congruence).
      apply IH in H' as [(t & k & tag & Ht & Hf & ->) Hlen]. simpl in Ht.
      split; [exists t, k, tag; repeat split; auto; lia|]. simpl. lia.
Qed.



End Batch.

(** ** The scrape run *)

Section Scrape.
Context {L : PyLib} {Sv : Services} {C : Config}.

(** The outcomes and the writes of a scrape run are those of its loop. *)
Lemma scrape_events_loop (evf evl : list event) (n : nat) :
  forallb is_fetch_event evf = true ->
  let evs := Print MsgStartingScrape :: evf ++ Print (MsgFoundLinks n) :: evl in
  outcomes evs = outcomes evl /\ writes evs = writes evl /\
  (forall k d, CallUpsert k d ∈ evs -> CallUpsert k d ∈ evl).
Proof.
  intros Hf. destruct (fetch_events_silent evf Hf) as (Ho & Hw & _ & _ & Hu).
  simpl. change (Print (MsgFoundLinks n) :: evl)
    with ([Print (MsgFoundLinks n)] ++ evl).
  rewrite !outcomes_app, !writes_app, Ho, Hw. simpl.
  repeat split; try reflexivity.
  intros k d Hin. apply elem_of_cons in Hin as [Hin|Hin]; [discriminate|].
  apply elem_of_app in Hin as [Hin|Hin]; [exfalso; eapply Hu; eassumption|].
  apply elem_of_cons in Hin as [Hin|Hin]; [discriminate|assumption].
Qed.

(** C8: a record that is in the store when a scrape run starts is the
    same record when the run ends, however the run ends; in particular
    it is not deleted, and the run never calls the store's upsert on its
    key.  An item with the URL of a record that is in the store, whatever
    title the page now shows for it, is processed without a call to the
    embedding provider and without a write. *)
Theorem existing_records_untouched (w : world) (url : str) (d : doc) :
  store w !! url = Some d ->
  let r := scrape_and_store w in
  store (final r) !! url = Some d /\
  (forall d', CallUpsert url d' ∉ events r) /\
  (forall n i title w',
     store w' !! url = Some d ->
     let item := process_link n i url title w' in
     List.filter is_embed_or_search (events item) = [] /\
     writes (events item) = [] /\
     store (final item) = store w').
Proof.
  intros Hd.
  destruct (fetch_blog_links_quiet w) as ([links Hl] & Hs & _ & Hf).
  rewrite (scrape_and_store_run w links Hl). cbn [res final events].
  assert (Hd' : store (final (fetch_blog_links w)) !! url = Some d)
    by (rewrite Hs; assumption).
  destruct (process_links_frame (length links) 1 links _ url d Hd')
    as [H1 H2].
  split; [assumption|]. split.
  - intros d' Hin.
    apply (scrape_events_loop _ _ _ Hf) in Hin. eapply H2; eassumption.
  - intros n i title w' Hw'. rewrite process_link_run. unfold link_run.
    rewrite Hw'. destruct (get_fault (clock w') url); repeat split.
Qed.


End Scrape.

(** ** Failures in the batch, the store round trip, the command line *)

Section Claims.
Context {L : PyLib} {Sv : Services} {C : Config}.

(** C3 (as amended): a failure of the embedding call or of the store
    write on one item never ends the batch: as long as the lookups are
    answered, the loop reaches its end and reports one outcome per item.
    A lookup failure other than "not found" is not handled per item: it
    is the only exception that leaves the loop, it leaves at the item
    whose lookup failed, and the items after it get no outcome.  An item
    anywhere in the batch whose embedding call or whose write raises is
    reported as failed, with the exception that was raised, and the loop
    goes on with the item after it: the run is the items before it, the
    lines of the failed item ending in its [MsgFailed] line, and the run
    of the items after it. *)
Theorem batch_failure_isolation (n i : nat) (links : list (str * str))
    (w : world) :
  let r := process_links n i links w in
  ((forall t url, clock w <= t -> get_fault t url = None) ->
   res r = Ok tt /\ length (outcomes (events r)) = length links) /\
  (forall e, res r = Raise e ->
     (exists t url tag,
        clock w <= t /\ get_fault t url = Some tag /\ e = Exception tag) /\
     length (outcomes (events r)) < length links) /\
  (forall url title rest tag,
     links = (url, title) :: rest ->
     get_fault (clock w) url = Some tag ->
     res r = Raise (Exception tag) /\
     events r = [Print (MsgChecking i n title); CallGet url] /\
     store (final r) = store w) /\
  (forall done url title rest,
     links = done ++ (url, title) :: rest ->
     let r0 := process_links n i done w in
     let w1 := final r0 in
     let k := i + length done in
     res r0 = Ok tt ->
     get_fault (clock w1) url = None ->
     store w1 !! url = None ->
     (forall e,
        embeddings_create (S (clock w1)) title = Raise e ->
        let r' := process_links n (S k) rest
                    (mkWorld (store w1) (S (S (clock w1)))) in
        res r = res r' /\ final r = final r' /\
        events r =
          events r0
            ++ [Print (MsgChecking k n title); CallGet url; Print MsgNewPost;
                CallEmbed title; Print (MsgFailed title e)]
            ++ events r' /\
        outcomes (events r) =
          outcomes (events r0) ++ Failed :: outcomes (events r')) /\
     (forall v e applied,
        embeddings_create (S (clock w1)) title = Ok v ->
        upsert_fault (S (S (clock w1))) url = Some (e, applied) ->
        let d := blog_post_doc url title v in
        let r' := process_links n (S k) rest
                    (mkWorld
                       (if applied then <[url := d]> (store w1)
                        else store w1)
                       (S (S (S (clock w1))))) in
        res r = res r' /\ final r = final r' /\
        events r =
          events r0
            ++ [Print (MsgChecking k n title); CallGet url; Print MsgNewPost;
                CallEmbed title; CallUpsert url d; Print (MsgFailed title e)]
            ++ events r' /\
        outcomes (events r) =
          outcomes (events r0) ++ Failed :: outcomes (events r'))).
Proof.
  intros r. split; [|split; [|split]].
  - apply process_links_completes.
  - apply process_links_raises.
  - intros url title rest tag -> Hf. subst r.
    rewrite process_links_cons. unfold bind.
    rewrite process_link_run. unfold link_run. rewrite Hf. simpl. auto.
  - intros done url title rest -> r0 w1 k Hres Hget Hlook. subst r.
    rewrite process_links_app. cbv zeta. fold r0. rewrite Hres. fold w1 k.
    rewrite process_links_cons. unfold bind.
    rewrite process_link_run. unfold link_run. rewrite Hget, Hlook.
    split.
    + intros e He. rewrite He. cbv zeta. cbn [res final events].
      split; [reflexivity|]. split; [reflexivity|]. split; [reflexivity|].
      rewrite !outcomes_app. reflexivity.
    + intros v e applied Hv Hu. rewrite Hv, Hu. cbv zeta.
      cbn [res final events].
      split; [reflexivity|]. split; [reflexivity|]. split; [reflexivity|].
      rewrite !outcomes_app. reflexivity.
Qed.

(** C5 (as amended): when link discovery raises, [fetch_blog_links]
    catches the exception, prints a diagnostic and answers with no
    links; the scrape run then ends normally, with exit status 0, having
    processed no item and left the store as it was. *)
Theorem render_failure_swallowed (a : args) (w : world) (e : exn) :
  arg_scrape a = true ->
  res (discover_links w) = Raise e ->
  let r := main a w in
  res r = Ok tt /\ exit_status r = 0 /\
  store (final r) = store w /\
  events r =
    Print MsgStartingScrape :: events (discover_links w)
      ++ [Print (MsgFetchError e); Print (MsgFoundLinks 0)].
Proof.
  intros Ha He. unfold main. rewrite Ha.
  assert (Hf : fetch_blog_links w =
               mkRun (Ok []) (final (discover_links w))
                 (events (discover_links w) ++ [Print (MsgFetchError e)])).
  { unfold fetch_blog_links, try_except. rewrite He. reflexivity. }
  assert (Hl : res (fetch_blog_links w) = Ok []) by (rewrite Hf; reflexivity).
  rewrite (scrape_and_store_run w [] Hl). rewrite Hf. simpl.
  unfold exit_status. simpl.
  destruct (discover_links_quiet w) as (Hs & _ & _).
  repeat split; try assumption.
  rewrite <- app_assoc. reflexivity.
Qed.

(** C6: after [store_embedding] has returned for (url, title,
    embedding), a lookup of the key [url] that the store answers gives a
    document whose [title] and [url] are the values that were stored and
    whose [type] is "blog_post"; the retriever's join prints that title
    and that URL. *)
Theorem stored_record_round_trip (url title : str) (embedding : list Q)
    (w w' : world) :
  res (store_embedding url title embedding w) = Ok tt ->
  store w' = store (final (store_embedding url title embedding w)) ->
  get_fault (clock w') url = None ->
  exists d,
    res (collection_get url w') = Ok d /\
    d !! "title"%string = Some (VStr title) /\
    d !! "url"%string = Some (VStr url) /\
    d !! "type"%string = Some (VStr (u "blog_post")) /\
    forall score,
      events (show_row (mkRow url score) w') =
      [CallGet url;
       Print (MsgResult (VStr title) (VStr url)
                (py_round2 (fmul score 100)))].
Proof.
  unfold store_embedding. rewrite collection_upsert_run.
  cbn [res final store].
  destruct (upsert_fault (clock w) url) as [[e b]|]; [discriminate|].
  intros _ Hs Hq. exists (blog_post_doc url title embedding).
  assert (Hget : store w' !! url = Some (blog_post_doc url title embedding))
    by (rewrite Hs; apply lookup_insert_eq).
  rewrite collection_get_run, Hq, Hget. cbn [res].
  split; [reflexivity|].
  split; [reflexivity|]. split; [reflexivity|]. split; [reflexivity|].
  intros score. unfold show_row, try_except, bind. cbn [row_id row_score].
  rewrite !collection_get_run, Hq, Hget. reflexivity.
Qed.

(** C10: [--search] with an empty query and without [--scrape] does
    what the command line without any operation does: it prints the
    usage help and nothing else, calls neither the embedding provider
    nor the vector search, and ends with exit status 0. *)
Theorem empty_search_prints_help (w : world) :
  let r := main (mkArgs false (Some [])) w in
  r = main (mkArgs false None) w /\
  events r = [Print MsgHelp] /\
  List.filter is_embed_or_search (events r) = [] /\
  res r = Ok tt /\ exit_status r = 0 /\ final r = w.
Proof. repeat split. Qed.

End Claims.

(** ** The displayed score *)

Lemma round_half_even_cases (q : Q) :
  round_half_even q = Qfloor q \/
  (round_half_even q = (Qfloor q + 1)%Z /\ (inject_Z (Qfloor q) < q)%Q).
Proof.
  unfold round_half_even.
  destruct (Qcompare (q - inject_Z (Qfloor q)) (1 # 2)) eqn:E.
  - apply Qeq_alt in E.
    destruct (Z.even (Qfloor q)); [left; reflexivity|right].
    split; [reflexivity|].
    apply Qlt_minus_iff. rewrite E. reflexivity.
  - left. reflexivity.
  - right. split; [reflexivity|].
    apply Qgt_alt in E. apply Qlt_minus_iff.
    eapply Qlt_trans; [|exact E]. reflexivity.
Qed.

(** Rounding to the nearest integer stays between integer bounds. *)
Lemma round_half_even_bounds (a b : Z) (q : Q) :
  (inject_Z a <= q)%Q -> (q <= inject_Z b)%Q ->
  (a <= round_half_even q <= b)%Z.
Proof.
  intros Ha Hb.
  assert (Hfa : (a <= Qfloor q)%Z)
    by (rewrite <- (Qfloor_Z a); apply Qfloor_resp_le; assumption).
  assert (Hfb : (Qfloor q <= b)%Z)
    by (rewrite <- (Qfloor_Z b); apply Qfloor_resp_le; assumption).
  destruct (round_half_even_cases q) as [->|[-> Hlt]]; [lia|].
  split; [lia|].
  assert (Hlt' : (inject_Z (Qfloor q) < inject_Z b)%Q)
    by (eapply Qlt_le_trans; eassumption).
  rewrite <- Zlt_Qlt in Hlt'. lia.
Qed.

(** ** Rounding to binary64 *)

Open Scope Q_scope.

Lemma pow2_pos (z : Z) : 0 < 2 ^ z.
Proof. apply Qpower_0_lt. reflexivity. Qed.

Lemma pow2_add (x y : Z) : 2 ^ (x + y) == 2 ^ x * 2 ^ y.
Proof. apply Qpower_plus. discriminate. Qed.

Lemma pow2_le (x y : Z) : (x <= y)%Z -> 2 ^ x <= 2 ^ y.
Proof. intros H. apply Qpower_le_compat_l; [exact H|discriminate]. Qed.

Lemma pow2_lt (x y : Z) : (x < y)%Z -> 2 ^ x < 2 ^ y.
Proof. intros H. apply Qpower_lt_compat_l; [exact H|reflexivity]. Qed.

Lemma pow2_inject (k : Z) : (0 <= k)%Z -> inject_Z (2 ^ k) == 2 ^ k.
Proof. intros H. apply (Zpower_Qpower 2 k H). Qed.

(** Moving a significand from one exponent to another. *)
Lemma rescale (a : Q) (x y : Z) : a * 2 ^ x * 2 ^ y == a * 2 ^ (x + y).
Proof. rewrite pow2_add. ring. Qed.

Lemma scale_le (a b : Q) (z : Z) : a <= b -> a * 2 ^ z <= b * 2 ^ z.
Proof. intros H. apply Qmult_le_compat_r; [exact H|]. apply Qlt_le_weak, pow2_pos. Qed.

Lemma scale_lt (a b : Q) (z : Z) : a < b -> a * 2 ^ z < b * 2 ^ z.
Proof. intros H. apply Qmult_lt_compat_r; [apply pow2_pos|exact H]. Qed.

(** The exponent is at least the least one, the significand is below
    [2^53], and it is at least [2^52] unless the value is subnormal. *)
Lemma float_exponent_spec (a : Q) :
  0 < a ->
  let e := float_exponent a in
  (-1074 <= e)%Z /\
  a * 2 ^ (- e) < 2 ^ 53 /\
  (2 ^ 52 <= a * 2 ^ (- e) \/ e = (-1074)%Z).
Proof.
  intros Ha e. subst e. unfold float_exponent.
  set (s := a * 2 ^ 1127).
  assert (Hs : 0 < s) by (apply Qmult_lt_0_compat; [exact Ha|apply pow2_pos]).
  set (N := Qfloor s).
  assert (HN0 : (0 <= N)%Z).
  { change 0%Z with (Qfloor 0). apply Qfloor_resp_le, Qlt_le_weak, Hs. }
  assert (Hlo : inject_Z N <= s) by apply Qfloor_le.
  assert (Hhi : s < inject_Z (N + 1)) by apply Qlt_floor.
  assert (Hback : forall z, a * 2 ^ z == s * 2 ^ (z - 1127)).
  { intros z. unfold s. rewrite rescale. 
    replace (1127 + (z - 1127))%Z with z by lia. reflexivity. }
  split; [lia|].
  destruct (Z.eq_dec N 0%Z) as [HN|HN].
  - rewrite HN. change (Z.log2 0) with 0%Z.
    change (Z.max (0 - 1179) (-1074)) with (-1074)%Z.
    split; [|right; reflexivity].
    rewrite Hback. rewrite HN in Hhi. change (inject_Z (0 + 1)) with 1 in Hhi.
    apply Qlt_trans with (1 * 2 ^ (- -1074 - 1127)).
    + apply scale_lt. exact Hhi.
    + reflexivity.
  - assert (HNpos : (0 < N)%Z) by lia.
    destruct (Z.log2_spec N HNpos) as [HL1 HL2].
    pose proof (Z.log2_nonneg N) as HL0.
    set (l := Z.log2 N) in *.
    assert (Hs1 : 2 ^ l <= s).
    { rewrite <- pow2_inject by exact HL0.
      eapply Qle_trans; [|exact Hlo]. rewrite <- Zle_Qle. exact HL1. }
    assert (Hs2 : s < 2 ^ (l + 1)).
    { rewrite <- pow2_inject by lia.
      eapply Qlt_le_trans; [exact Hhi|]. rewrite <- Zle_Qle.
      unfold Z.succ in HL2. lia. }
    destruct (Z.max_spec (l - 1179) (-1074)) as [[Hlt ->]|[Hge ->]].
    + split; [|right; reflexivity].
      rewrite Hback.
      apply Qlt_le_trans with (2 ^ (l + 1) * 2 ^ (- -1074 - 1127)).
      * apply scale_lt. exact Hs2.
      * rewrite <- pow2_add. apply pow2_le. lia.
    + rewrite Hback. split; [|left].
      * apply Qlt_le_trans with (2 ^ (l + 1) * 2 ^ (- (l - 1179) - 1127)).
        -- apply scale_lt. exact Hs2.
        -- rewrite <- pow2_add. apply pow2_le. lia.
      * apply Qle_trans with (2 ^ l * 2 ^ (- (l - 1179) - 1127)).
        -- rewrite <- pow2_add. apply pow2_le. lia.
        -- apply scale_le. exact Hs1.
Qed.

(** Rounding to the nearest integer keeps the order. *)
Lemma round_half_even_mono (x y : Q) :
  x <= y -> (round_half_even x <= round_half_even y)%Z.
Proof.
  intros Hxy. pose proof (Qfloor_resp_le x y Hxy) as Hf.
  destruct (Z.eq_dec (Qfloor x) (Qfloor y)) as [Heq|Hne].
  - unfold round_half_even. rewrite <- Heq.
    assert (Hr : x - inject_Z (Qfloor x) <= y - inject_Z (Qfloor x)).
    { apply Qplus_le_l. exact Hxy. }
    destruct (Qcompare (x - inject_Z (Qfloor x)) (1 # 2)) eqn:Ex;
      destruct (Qcompare (y - inject_Z (Qfloor x)) (1 # 2)) eqn:Ey;
      try (destruct (Z.even (Qfloor x))); try lia; exfalso;
      repeat match goal with
             | H : (?p ?= ?q) = Eq |- _ => apply (proj2 (Qeq_alt p q)) in H
             | H : (?p ?= ?q) = Lt |- _ => apply (proj2 (Qlt_alt p q)) in H
             | H : (?p ?= ?q) = Gt |- _ => apply (proj2 (Qgt_alt p q)) in H
             end; lra.
  - destruct (round_half_even_cases x) as [->|[-> _]];
      destruct (round_half_even_cases y) as [->|[-> _]]; lia.
Qed.

Lemma nearest_nonneg (a : Q) : 0 < a -> 0 <= nearest a.
Proof.
  intros Ha. unfold nearest. apply Qmult_le_0_compat.
  - change 0 with (inject_Z 0). rewrite <- Zle_Qle.
    apply (round_half_even_bounds 0 (Qceiling (a * 2 ^ (- float_exponent a)))).
    + apply Qmult_le_0_compat; [apply Qlt_le_weak, Ha|].
      apply Qlt_le_weak, pow2_pos.
    + apply Qle_ceiling.
  - apply Qlt_le_weak, pow2_pos.
Qed.

Lemma nearest_mono (a b : Q) : 0 < a -> a <= b -> nearest a <= nearest b.
Proof.
  intros Ha Hab.
  assert (Hb : 0 < b) by (eapply Qlt_le_trans; eassumption).
  destruct (float_exponent_spec a Ha) as (Hea & Ha53 & Ha52).
  destruct (float_exponent_spec b Hb) as (Heb & Hb53 & Hb52).
  unfold nearest.
  set (ea := float_exponent a) in *. set (eb := float_exponent b) in *.
  assert (Hle : (ea <= eb)%Z).
  { destruct (Z.le_gt_cases ea eb) as [H|H]; [exact H|exfalso].
    destruct Ha52 as [Ha52|Ha52]; [|lia].
    apply (Qlt_irrefl (2 ^ 53)).
    apply Qle_lt_trans with (b * 2 ^ (- eb)); [|exact Hb53].
    apply Qle_trans with (a * 2 ^ (- eb)); [|apply scale_le; exact Hab].
    apply Qle_trans with (2 ^ 52 * 2 ^ (ea - eb)).
    - change (2 ^ 53) with (2 ^ 52 * 2 ^ 1).
      apply Qmult_le_l; [reflexivity|]. apply pow2_le. lia.
    - replace (- eb)%Z with (- ea + (ea - eb))%Z by lia.
      rewrite <- rescale. apply scale_le. exact Ha52. }
  destruct (Z.eq_dec ea eb) as [Heq|Hne].
  - rewrite <- Heq. apply scale_le. rewrite <- Zle_Qle.
    apply round_half_even_mono. apply scale_le. exact Hab.
  - assert (Hlt : (ea < eb)%Z) by lia.
    destruct Hb52 as [Hb52|Hb52]; [|lia].
    apply Qle_trans with (inject_Z (2 ^ 53) * 2 ^ ea).
    + apply scale_le. rewrite <- Zle_Qle.
      apply (round_half_even_bounds 0 (2 ^ 53)).
      * apply Qmult_le_0_compat; [apply Qlt_le_weak, Ha|].
        apply Qlt_le_weak, pow2_pos.
      * apply Qlt_le_weak. exact Ha53.
    + apply Qle_trans with (inject_Z (2 ^ 52) * 2 ^ eb).
      * change (inject_Z (2 ^ 53)) with (2 ^ 53).
        change (inject_Z (2 ^ 52)) with (2 ^ 52).
        rewrite <- !pow2_add. apply pow2_le. lia.
      * apply scale_le. rewrite <- Zle_Qle.
        apply (round_half_even_bounds (2 ^ 52)
                 (Qceiling (b * 2 ^ (- eb)))).
        -- exact Hb52.
        -- apply Qle_ceiling.
Qed.

Lemma binary64_pos (p d : positive) :
  binary64 (Zpos p # d) == nearest (Zpos p # d).
Proof.
  unfold binary64, nearest. cbn [Qnum].
  change (Qabs (Zpos p # d)) with (Zpos p # d).
  change (Z.sgn (Zpos p)) with 1%Z.
  rewrite Z.mul_1_l. reflexivity.
Qed.

Lemma binary64_neg (p d : positive) :
  binary64 (Zneg p # d) == - nearest (Zpos p # d).
Proof.
  unfold binary64, nearest. cbn [Qnum].
  change (Qabs (Zneg p # d)) with (Zpos p # d).
  change (Z.sgn (Zneg p)) with (-1)%Z.
  set (m := round_half_even _).
  replace (-1 * m)%Z with (- m)%Z by lia.
  rewrite inject_Z_opp. ring.
Qed.

(** Rounding to binary64 keeps the order. *)
Lemma binary64_mono (x y : Q) : x <= y -> binary64 x <= binary64 y.
Proof.
  destruct x as [[|px|px] dx], y as [[|py|py] dy]; intros Hxy;
    rewrite ?binary64_pos, ?binary64_neg;
    try (exfalso; revert Hxy; unfold Qle; cbn; lia).
  - apply Qle_refl.
  - apply nearest_nonneg. reflexivity.
  - apply nearest_mono; [reflexivity|exact Hxy].
  - apply (Qopp_le_compat 0). apply nearest_nonneg. reflexivity.
  - apply Qle_trans with 0.
    + apply (Qopp_le_compat 0). apply nearest_nonneg. reflexivity.
    + apply nearest_nonneg. reflexivity.
  - apply Qopp_le_compat. apply nearest_mono; [reflexivity|].
    revert Hxy. unfold Qle. cbn. lia.
Qed.

Close Scope Q_scope.

Section Score.
Context {Sv : Services}.

Lemma py_round2_bounds (x : Q) :
  (0 <= x <= 100)%Q -> (0 <= py_round2 x <= 100)%Q.
Proof.
  intros [Hx0 Hx1]. unfold py_round2.
  destruct (round_half_even_bounds 0 10000 (x * 100)) as [Hz0 Hz1].
  - change (inject_Z 0) with (0 * 100)%Q.
    apply Qmult_le_compat_r; [assumption|discriminate].
  - change (inject_Z 10000) with (100 * 100)%Q.
    apply Qmult_le_compat_r; [assumption|discriminate].
  - set (z := round_half_even (x * 100)) in *.
    assert (Hq0 : (0 <= inject_Z z / 100)%Q).
    { apply Qle_shift_div_l; [reflexivity|].
      rewrite Qmult_0_l. change 0%Q with (inject_Z 0).
      rewrite <- Zle_Qle. assumption. }
    assert (Hq1 : (inject_Z z / 100 <= 100)%Q).
    { apply Qle_shift_div_r; [reflexivity|].
      change (100 * 100)%Q with (inject_Z 10000).
      rewrite <- Zle_Qle. assumption. }
    split.
    + change 0%Q with (binary64 0) at 1. apply binary64_mono. assumption.
    + apply Qle_trans with (binary64 100); [|vm_compute; discriminate].
      apply binary64_mono. assumption.
Qed.

(** C9 (as amended): for a hit whose join succeeds, the score that is
    printed is [round(s * 100, 2)] for the score [s] of the search
    stage; the code puts no bound on it, and it lies between 0 and 100
    when [s] lies between 0 and 1. *)
Theorem displayed_score_rounded (r : row) (w : world) (d : doc) :
  res (collection_get (row_id r) w) = Ok d ->
  events (show_row r w) =
    [CallGet (row_id r);
     Print (MsgResult (doc_get d "title" (VStr (u "N/A")))
              (doc_get d "url" (VStr (u "N/A")))
              (py_round2 (fmul (row_score r) 100)))] /\
  ((0 <= row_score r <= 1)%Q ->
   (0 <= py_round2 (fmul (row_score r) 100) <= 100)%Q).
Proof.
  intros Hget. split.
  - unfold show_row, try_except, bind.
    rewrite collection_get_run in *. simpl in Hget.
    simpl. rewrite Hget. reflexivity.
  - intros [Hs0 Hs1]. apply py_round2_bounds. unfold fmul. split.
    + change 0%Q with (binary64 0) at 1. apply binary64_mono.
      change 0%Q with (0 * 100)%Q.
      apply Qmult_le_compat_r; [assumption|discriminate].
    + apply Qle_trans with (binary64 100); [|vm_compute; discriminate].
      apply binary64_mono. change 100%Q with (1 * 100)%Q at 2.
      apply Qmult_le_compat_r; [assumption|discriminate].
Qed.

End Score.

(** ** Resolution of relative links *)

Lemma startswith_app (p s : str) : startswith p (p ++ s) = true.
Proof.
  induction p as [|a p IH]; simpl; [reflexivity|].
  rewrite N.eqb_refl, IH. reflexivity.
Qed.

Lemma anchored_at_app (origin rest : str) :
  match rest with
  | [] => true
  | c :: _ => N.eqb c (ch "/") || N.eqb c (ch "?") || N.eqb c (ch "#")
  end = true ->
  anchored_at origin (origin ++ rest) = true.
Proof.
  intros H. unfold anchored_at.
  rewrite startswith_app, drop_app_length. exact H.
Qed.

Lemma nonempty_true (s : str) :
  UrlParse.nonempty s = true -> exists c t, s = c :: t.
Proof. destruct s as [|c t]; [discriminate|eauto]. Qed.

(** Every scheme that allows relative references has a network
    location. *)
Lemma uses_relative_netloc (s : str) :
  UrlParse.mem s UrlParse.uses_relative = true ->
  UrlParse.mem s UrlParse.uses_netloc = true.
Proof.
  intros H. unfold UrlParse.mem in H. apply existsb_exists in H.
  destruct H as (x & Hin & Heq). apply bool_decide_eq_true in Heq. subst x.
  assert (Hall : forallb (fun y => UrlParse.mem y UrlParse.uses_netloc)
                   UrlParse.uses_relative = true) by (vm_compute; reflexivity).
  rewrite forallb_forall in Hall. apply Hall. assumption.
Qed.

(** A URL put together from a scheme and a network location starts with
    them. *)
Lemma urlunparse_anchored (sch nl p pa q f : str) :
  UrlParse.nonempty sch = true ->
  UrlParse.nonempty nl = true ->
  anchored_at (sch ++ u "://" ++ nl)
    (UrlParse.urlunparse (UrlParse.mkParse sch nl p pa q f)) = true.
Proof.
  intros Hs Hn. unfold UrlParse.urlunparse, UrlParse.urlunsplit.
  cbn [UrlParse.scheme UrlParse.netloc UrlParse.path UrlParse.params
       UrlParse.query UrlParse.fragment].
  rewrite Hs, Hn. cbn [orb].
  set (url0 := if UrlParse.nonempty pa then p ++ u ";" ++ pa else p).
  clearbody url0.
  set (url1 := if UrlParse.nonempty url0
                    && negb (Str.eqb (take 1 url0) (u "/"))
               then u "/" ++ url0 else url0).
  assert (H1 : url1 = [] \/ exists t, url1 = 47%N :: t).
  { subst url1. destruct url0 as [|c t]; [left; reflexivity|]. right.
    cbn [UrlParse.nonempty andb take]. rewrite take_0. unfold Str.eqb. lits.
    destruct (bool_decide ([c] = [47%N])) eqn:E; cbn [negb].
    - apply bool_decide_eq_true in E. injection E as ->. eauto.
    - eexists. reflexivity. }
  clearbody url1.
  assert (Hpre : sch ++ u ":" ++ u "//" ++ nl ++ url1
                 = (sch ++ u "://" ++ nl) ++ url1).
  { lits. simpl. rewrite <- app_assoc. reflexivity. }
  rewrite Hpre. set (origin := sch ++ u "://" ++ nl). clearbody origin.
  destruct (UrlParse.nonempty f), (UrlParse.nonempty q);
    rewrite <- ?app_assoc; apply anchored_at_app;
    destruct H1 as [->|[t ->]]; lits; reflexivity.
Qed.

(** ** The base URL is an origin *)

(** The first occurrence in a prefix is the first occurrence, when it
    falls inside the prefix. *)
Lemma find_take (c : N) (k : nat) (s : str) :
  find c (take k s) =
  match find c s with
  | Some i => if i <? k then Some i else None
  | None => None
  end.
Proof.
  revert k. induction s as [|x s IH]; intros k.
  - rewrite take_nil. reflexivity.
  - destruct k as [|k]; simpl.
    + destruct (N.eqb c x); [reflexivity|].
      destruct (find c s); reflexivity.
    + destruct (N.eqb c x); [reflexivity|].
      rewrite IH. destruct (find c s) as [i|]; simpl; [|reflexivity].
      change (S i <? S k) with (i <? k). destruct (i <? k); reflexivity.
Qed.

(** The network location that [_splitnetloc] cuts out holds none of the
    three delimiters. *)
Lemma splitnetloc_no_delim (url : str) (c : N) :
  c = ch "/" \/ c = ch "?" \/ c = ch "#" ->
  find c (fst (UrlParse.splitnetloc url 2)) = None.
Proof.
  intros Hc. unfold UrlParse.splitnetloc. cbn [fst fold_left].
  set (d := match find_from (ch "#") 2 url with
            | Some w => Nat.min _ w | None => _ end).
  assert (Hd : forall i, find c (drop 2 url) = Some i -> d <= 2 + i).
  { intros i Hi. subst d. unfold find_from.
    destruct Hc as [-> | [-> | ->]]; rewrite ?Hi; cbn [option_map];
      repeat match goal with
             | |- context [find ?x (drop 2 url)] =>
                 destruct (find x (drop 2 url)); cbn [option_map]
             end; lia. }
  clearbody d.
  destruct (Nat.le_gt_cases d 2) as [Hle|Hgt].
  - rewrite drop_ge; [reflexivity|]. rewrite length_take. lia.
  - replace d with (2 + (d - 2)) by lia.
    rewrite <- take_drop_commute, find_take.
    destruct (find c (drop 2 url)) as [i|]; [|reflexivity].
    specialize (Hd i eq_refl).
    destruct (Nat.ltb_spec i (d - 2)); [lia|reflexivity].
Qed.

(** What [remove_unsafe] leaves is safe, and stays as it is. *)

Lemma remove_unsafe_safe (s : str) :
  Forall (fun x => safe_char x = true) (UrlParse.remove_unsafe s).
Proof.
  unfold UrlParse.remove_unsafe, remove_char, safe_char.
  apply Forall_forall. intros x Hx. apply list_elem_of_In in Hx.
  apply filter_In in Hx as [Hx H10]. apply filter_In in Hx as [Hx H13].
  apply filter_In in Hx as [_ H9]. rewrite H10, H13, H9. reflexivity.
Qed.

Lemma remove_unsafe_id (s : str) :
  Forall (fun x => safe_char x = true) s -> UrlParse.remove_unsafe s = s.
Proof.
  unfold UrlParse.remove_unsafe, remove_char, safe_char.
  induction 1 as [|x s Hx _ IH]; [reflexivity|].
  apply andb_true_iff in Hx as [Hx H9]. apply andb_true_iff in Hx as [H10 H13].
  cbn [List.filter]. rewrite H9. cbn [List.filter]. rewrite H13.
  cbn [List.filter]. rewrite H10. f_equal. exact IH.
Qed.

Lemma splitnetloc_origin (n : str) :
  find (ch "/") n = None -> find (ch "?") n = None ->
  find (ch "#") n = None ->
  UrlParse.splitnetloc (u "//" ++ n) 2 = (n, []).
Proof.
  intros H1 H2 H3. unfold UrlParse.splitnetloc, find_from.
  change (drop 2 (u "//" ++ n)) with n.
  cbn [fold_left]. rewrite H1, H2, H3. cbn [option_map].
  rewrite firstn_all, drop_all. reflexivity.
Qed.

Section Origin.
Context {L : PyLib}.

Lemma split_scheme_rest (url sch : str) :
  exists k, snd (UrlParse.split_scheme url sch) = drop k url.
Proof.
  unfold UrlParse.split_scheme.
  destruct (find (ch ":") url) as [[|i]|]; try (exists 0; reflexivity).
  destruct (is_ascii_alpha (hd 0%N url)
            && forallb UrlParse.in_scheme_chars (take (S i) url));
    [exists (S (S i))|exists 0]; reflexivity.
Qed.

(** What a successful [urlsplit] says about a non-empty network location
    it has found. *)
Lemma urlsplit_netloc_facts (url sch0 : str) (r : UrlParse.SplitResult) :
  UrlParse.urlsplit url sch0 = Ok r ->
  UrlParse.nonempty (UrlParse.s_netloc r) = true ->
  Forall (fun x => safe_char x = true) (UrlParse.s_netloc r) /\
  find (ch "/") (UrlParse.s_netloc r) = None /\
  find (ch "?") (UrlParse.s_netloc r) = None /\
  find (ch "#") (UrlParse.s_netloc r) = None /\
  brackets_refused (UrlParse.s_netloc r) = false /\
  UrlParse.checknetloc (UrlParse.s_netloc r) = true.
Proof.
  unfold UrlParse.urlsplit. cbv zeta.
  set (url1 := UrlParse.remove_unsafe (lstrip UrlParse.is_c0_or_space url)).
  set (sch1 := UrlParse.remove_unsafe (strip UrlParse.is_c0_or_space sch0)).
  destruct (split_scheme_rest url1 sch1) as [k Hk].
  destruct (UrlParse.split_scheme url1 sch1) as [sch url2].
  cbn [snd] in Hk.
  destruct (startswith (u "//") url2).
  - pose proof (splitnetloc_no_delim url2) as Hnd.
    assert (Hsafe : Forall (fun x => safe_char x = true)
                      (fst (UrlParse.splitnetloc url2 2))).
    { unfold UrlParse.splitnetloc. cbn [fst].
      apply Forall_drop, Forall_take. rewrite Hk. apply Forall_drop.
      apply remove_unsafe_safe. }
    destruct (UrlParse.splitnetloc url2 2) as [n rest]. cbn [fst] in *.
    destruct ((has (ch "[") n && negb (has (ch "]") n))
              || (has (ch "]") n && negb (has (ch "[") n))) eqn:Hb1;
      [discriminate|].
    destruct (has (ch "[") n && has (ch "]") n
              && negb (UrlParse.check_bracketed_netloc n)) eqn:Hb2;
      [discriminate|].
    cbn [rbind orb].
    destruct (if has (ch "#") rest then _ else _) as [url3 frag].
    destruct (if has (ch "?") url3 then _ else _) as [url4 qry].
    destruct (UrlParse.checknetloc n) eqn:Hc; [|discriminate].
    intros [= <-] _. cbn [UrlParse.s_netloc].
    unfold brackets_refused. rewrite Hb1, Hb2.
    repeat split; auto.
  - cbn [rbind].
    destruct (if has (ch "#") url2 then _ else _) as [url3 frag].
    destruct (if has (ch "?") url3 then _ else _) as [url4 qry].
    cbn [UrlParse.checknetloc]. intros [= <-]. discriminate.
Qed.

(** Reading back a scheme that allows relative references, ["://"] and a
    network location gives that scheme and that network location. *)
Lemma urlsplit_origin (s n : str) :
  UrlParse.mem s UrlParse.uses_relative = true ->
  UrlParse.nonempty s = true ->
  Forall (fun x => safe_char x = true) n ->
  find (ch "/") n = None -> find (ch "?") n = None ->
  find (ch "#") n = None ->
  brackets_refused n = false ->
  UrlParse.checknetloc n = true ->
  UrlParse.urlsplit (s ++ u "://" ++ n) [] = Ok (UrlParse.mkSplit s n [] [] []).
Proof.
  intros Hmem Hne Hsafe H1 H2 H3 Hbr Hck.
  unfold UrlParse.mem in Hmem. apply existsb_exists in Hmem.
  destruct Hmem as (x & Hin & Heq). apply bool_decide_eq_true in Heq.
  subst x. unfold UrlParse.urlsplit. cbv zeta.
  assert (Hss :
    UrlParse.split_scheme
      (UrlParse.remove_unsafe
         (lstrip UrlParse.is_c0_or_space (s ++ u "://" ++ n)))
      (UrlParse.remove_unsafe (strip UrlParse.is_c0_or_space []))
    = (s, u "//" ++ UrlParse.remove_unsafe n)).
  { cbv [UrlParse.uses_relative List.map] in Hin.
    repeat (destruct Hin as [<-|Hin]; [try discriminate; reflexivity|]).
    destruct Hin. }
  rewrite Hss, (remove_unsafe_id n Hsafe).
  change (startswith (u "//") (u "//" ++ n)) with true. cbv iota.
  rewrite (splitnetloc_origin n H1 H2 H3).
  unfold brackets_refused in Hbr.
  apply orb_false_iff in Hbr as [Hb1 Hb2]. rewrite Hb1, Hb2.
  cbn [rbind has existsb]. rewrite Hck. reflexivity.
Qed.

Lemma urlparse_origin (url : str) (PARSED : UrlParse.ParseResult) :
  UrlParse.urlparse url [] = Ok PARSED ->
  UrlParse.nonempty (UrlParse.scheme PARSED) = true ->
  UrlParse.mem (UrlParse.scheme PARSED) UrlParse.uses_relative = true ->
  UrlParse.nonempty (UrlParse.netloc PARSED) = true ->
  UrlParse.urlparse
    (UrlParse.scheme PARSED ++ u "://" ++ UrlParse.netloc PARSED) []
  = Ok (UrlParse.mkParse (UrlParse.scheme PARSED) (UrlParse.netloc PARSED)
          [] [] [] []).
Proof.
  unfold UrlParse.urlparse at 1.
  destruct (UrlParse.urlsplit url []) as [r|e] eqn:Hr; [|discriminate].
  cbn [rbind].
  destruct (if UrlParse.mem (UrlParse.s_scheme r) UrlParse.uses_params
               && has (ch ";") (UrlParse.s_path r) then _ else _)
    as [p pa].
  intros [= <-]. cbn [UrlParse.scheme UrlParse.netloc].
  intros Hne Hmem Hnl.
  destruct (urlsplit_netloc_facts url [] r Hr Hnl)
    as (Hsafe & H1 & H2 & H3 & Hbr & Hck).
  unfold UrlParse.urlparse.
  rewrite (urlsplit_origin _ _ Hmem Hne Hsafe H1 H2 H3 Hbr Hck).
  cbn [rbind UrlParse.s_scheme UrlParse.s_netloc UrlParse.s_path
       UrlParse.s_query UrlParse.s_fragment has existsb].
  rewrite andb_false_r. reflexivity.
Qed.

End Origin.

Section Resolve.
Context {L : PyLib} {Sv : Services} {C : Config}.

(** Against a base that is an origin, an href without a scheme other
    than the base's and without a network location resolves to the base
    followed by a path, a query or a fragment. *)
Lemma resolve_anchored (href : str) (b r : UrlParse.ParseResult) :
  base_is_origin b ->
  (startswith (u "http://") href || startswith (u "https://") href) = false ->
  UrlParse.urlparse href (UrlParse.scheme b) = Ok r ->
  UrlParse.scheme r = UrlParse.scheme b ->
  UrlParse.netloc r = [] ->
  exists full_url,
    resolve href = Ok full_url /\ anchored_at BASE_URL full_url = true.
Proof.
  intros (Hb & Hbase & Hsch & Hrel & Hnl) Habs Hr Hs Hn.
  unfold resolve. rewrite Habs. cbn [negb]. unfold UrlParse.urljoin.
  destruct (nonempty_true _ Hsch) as (c & t & Hc).
  assert (Hne : UrlParse.nonempty BASE_URL = true)
    by (rewrite Hbase, Hc; reflexivity).
  rewrite Hne. cbn [negb].
  destruct (UrlParse.nonempty href) eqn:Hhref; cbn [negb].
  - rewrite Hb. cbn [rbind]. rewrite Hr. cbn [rbind].
    rewrite Hs, Hn, Hrel, (uses_relative_netloc _ Hrel).
    unfold Str.eqb at 1. rewrite bool_decide_eq_true_2 by reflexivity.
    cbn [negb orb andb UrlParse.nonempty]. rewrite Hbase.
    destruct (negb (UrlParse.nonempty (UrlParse.path r))
              && negb (UrlParse.nonempty (UrlParse.params r)));
      eexists; (split; [reflexivity|]);
      apply urlunparse_anchored; assumption.
  - exists BASE_URL. split; [reflexivity|].
    rewrite <- (app_nil_r BASE_URL) at 2. apply anchored_at_app. reflexivity.
Qed.

(** The base that the module computes from a configured URL with a
    scheme that allows relative references and with a network location
    is an origin. *)
Lemma module_init_origin (iframe_url : str) (PARSED : UrlParse.ParseResult) :
  module_init (Some iframe_url) = Ok C ->
  UrlParse.urlparse iframe_url [] = Ok PARSED ->
  UrlParse.nonempty (UrlParse.scheme PARSED) = true ->
  UrlParse.mem (UrlParse.scheme PARSED) UrlParse.uses_relative = true ->
  UrlParse.nonempty (UrlParse.netloc PARSED) = true ->
  base_is_origin
    (UrlParse.mkParse (UrlParse.scheme PARSED) (UrlParse.netloc PARSED)
       [] [] [] []).
Proof.
  intros Hinit Hparse Hne Hmem Hnl.
  assert (Hbase : BASE_URL = UrlParse.scheme PARSED ++ u "://"
                             ++ UrlParse.netloc PARSED).
  { unfold module_init in Hinit. rewrite Hparse in Hinit.
    cbn [rbind] in Hinit. injection Hinit as Hinit.
    rewrite <- Hinit. reflexivity. }
  unfold base_is_origin. cbn [UrlParse.scheme UrlParse.netloc].
  rewrite Hbase at 1.
  rewrite (urlparse_origin iframe_url PARSED Hparse Hne Hmem Hnl). auto.
Qed.

(** C7 (as amended): when the configured URL has a scheme that allows
    relative references and a network location, an href that is not
    already absolute, and that [urlparse] reads as having no scheme other
    than the base's and no network location of its own, resolves to an
    absolute URL anchored at the base origin: the scheme and network
    location of the configured URL, followed by a path, a query or a
    fragment. *)
Theorem relative_href_anchored (iframe_url href : str)
    (PARSED r : UrlParse.ParseResult) :
  module_init (Some iframe_url) = Ok C ->
  UrlParse.urlparse iframe_url [] = Ok PARSED ->
  UrlParse.nonempty (UrlParse.scheme PARSED) = true ->
  UrlParse.mem (UrlParse.scheme PARSED) UrlParse.uses_relative = true ->
  UrlParse.nonempty (UrlParse.netloc PARSED) = true ->
  (startswith (u "http://") href || startswith (u "https://") href) = false ->
  UrlParse.urlparse href (UrlParse.scheme PARSED) = Ok r ->
  UrlParse.scheme r = UrlParse.scheme PARSED ->
  UrlParse.netloc r = [] ->
  exists full_url,
    resolve href = Ok full_url /\
    anchored_at
      (UrlParse.scheme PARSED ++ u "://" ++ UrlParse.netloc PARSED)
      full_url = true.
Proof.
  intros Hinit Hparse Hne Hmem Hnl Habs Hr Hs Hn.
  pose proof (module_init_origin iframe_url PARSED Hinit Hparse Hne Hmem Hnl)
    as Horigin.
  destruct (resolve_anchored href _ r Horigin Habs Hr Hs Hn)
    as (full_url & Hres & Hanch).
  exists full_url. split; [exact Hres|].
  destruct Horigin as (_ & Hbase & _).
  cbn [UrlParse.scheme UrlParse.netloc] in Hbase.
  rewrite <- Hbase. exact Hanch.
Qed.

End Resolve.

(** ** The link classifier *)

Section Classifier.
Context {L : PyLib} {Sv : Services} {C : Config}.

Lemma skip_anchor_false (href title : str) :
  skip_anchor href title = false <->
  href <> [] /\ title <> [] /\ 5 <= length title /\
  startswith (u "#") href = false /\
  startswith (u "javascript:") href = false.
Proof.
  unfold skip_anchor. rewrite !orb_false_iff, !negb_false_iff.
  rewrite Nat.ltb_ge.
  destruct href as [|c h], title as [|c' t]; cbn [UrlParse.nonempty];
    split; intros H; decompose [and] H; repeat split;
    try congruence; try assumption; try discriminate.
Qed.

Lemma is_blog_post_true (full_url : str) :
  is_blog_post full_url = true <->
  contains (u "blog") (str_lower full_url) = true /\
  (contains (u "post") (str_lower full_url) = true \/
   contains (u "entry") (str_lower full_url) = true \/
   contains (u "article") (str_lower full_url) = true).
Proof.
  unfold is_blog_post. rewrite andb_true_iff, !orb_true_iff. tauto.
Qed.

(** The decision of the loop for one anchor is the one of the
    specification. *)
Lemma classify_anchors_step (a : anchor) (rest : list anchor)
    (links : list (str * str)) (w : world) :
  resolvable a ->
  exists dec : option (str * str),
    (forall link, dec = Some link <-> spec_emits a link) /\
    res (classify_anchors (a :: rest) links w) =
    res (classify_anchors rest
           (links ++ match dec with Some l => [l] | None => [] end) w).
Proof.
  intros Hres. cbn [classify_anchors].
  destruct (a_href a) as [href|] eqn:Hh.
  2:{ exists None. rewrite app_nil_r. split; [|reflexivity].
      intros link. split; [discriminate|]. intros (h & H & _). congruence. }
  destruct (skip_anchor href (a_text a)) eqn:Hskip.
  { exists None. rewrite app_nil_r. split; [|reflexivity].
    intros link. split; [discriminate|].
    intros (h & H & H1 & H2 & H3 & H4 & H5 & _).
    assert (h = href) by congruence. subst h.
    assert (Hf : skip_anchor href (a_text a) = false)
      by (apply skip_anchor_false; auto).
    congruence. }
  destruct (Hres href Hh Hskip) as [full_url Hfull].
  unfold bind. rewrite Hfull. cbn [lift ret res final events].
  destruct (is_blog_post full_url) eqn:Hblog.
  - exists (Some (full_url, a_text a)). split.
    + intros link. split.
      * intros [= <-]. exists href.
        apply skip_anchor_false in Hskip.
        apply is_blog_post_true in Hblog. cbn [fst snd]. tauto.
      * intros (h & H & _ & _ & _ & _ & _ & Hr & Ht & _).
        assert (h = href) by congruence. subst h.
        destruct link as [url title]. cbn [fst snd] in *. congruence.
    + unfold bind, print, emit. cbn [res final]. 
      destruct (res (classify_anchors rest _ w)); reflexivity.
  - exists None. rewrite app_nil_r. split; [|reflexivity].
    intros link. split; [discriminate|].
    intros (h & H & _ & _ & _ & _ & _ & Hr & _ & Hb).
    assert (h = href) by congruence. subst h.
    assert (fst link = full_url) by congruence. subst full_url.
    apply is_blog_post_true in Hb. congruence.
Qed.

Lemma classify_anchors_decisions (all_anchors : list anchor)
    (links : list (str * str)) (w : world) :
  Forall resolvable all_anchors ->
  exists decisions : list (option (str * str)),
    res (classify_anchors all_anchors links w)
      = Ok (links ++ omap (fun dec => dec) decisions) /\
    Forall2 (fun a dec => forall link, dec = Some link <-> spec_emits a link)
      all_anchors decisions.
Proof.
  intros Hall. revert links.
  induction Hall as [|a rest Ha Hrest IH]; intros links.
  - exists []. rewrite app_nil_r. split; [reflexivity|constructor].
  - destruct (classify_anchors_step a rest links w Ha) as (dec & Hdec & Hstep).
    destruct (IH (links ++ match dec with Some l => [l] | None => [] end))
      as (decisions & Hrun & Hspec).
    exists (dec :: decisions). split; [|constructor; assumption].
    rewrite Hstep, Hrun, <- app_assoc. destruct dec; reflexivity.
Qed.

Lemma res_bind {A B : Type} (m : M A) (k : A -> M B) (w : world) :
  res (bind m k w) =
  match res (m w) with
  | Ok a => res (k a (final (m w)))
  | Raise e => Raise e
  end.
Proof. unfold bind. destruct (res (m w)); reflexivity. Qed.

Lemma start_headless_browser_ok (w : world) :
  chrome_start (clock w) = None ->
  start_headless_browser w =
  mkRun (Ok tt) (mkWorld (store w) (S (clock w))) [CallChrome].
Proof.
  intros Hc. unfold start_headless_browser, bind, tick, emit.
  cbn [res final events clock store]. rewrite Hc. reflexivity.
Qed.

(** With the browser started and the page loaded, link discovery answers
    with what the loop over the anchors of the page answers. *)
Lemma discover_links_page (w : world) (all_anchors : list anchor) :
  chrome_start (clock w) = None ->
  driver_get (S (clock w)) = None ->
  page_source (S (S (clock w))) = Ok all_anchors ->
  res (discover_links w) =
  res (classify_anchors all_anchors []
         (mkWorld (store w) (S (S (S (clock w)))))).
Proof.
  intros Hc Hd Hp. unfold discover_links.
  rewrite res_bind, (start_headless_browser_ok w Hc). cbn [res final].
  rewrite res_bind. cbn [print emit res final].
  rewrite res_bind. cbn [tick res final clock store].
  rewrite res_bind. cbn [emit res final].
  rewrite res_bind, Hd. cbn [ret res final].
  rewrite res_bind. cbn [print emit res final].
  rewrite res_bind. cbn [tick res final clock store].
  rewrite res_bind. cbn [emit res final].
  rewrite res_bind, Hp. cbn [lift ret res final].
  rewrite res_bind. cbn [print emit res final].
  rewrite res_bind. cbn [print emit res final].
  reflexivity.
Qed.

(** C2 (as amended): for the anchors of a rendered page, when resolving
    the href of every anchor the loop gets to resolve succeeds, the
    classifier goes through the anchors in document order and emits an
    anchor -- as its resolved URL and its text -- if and only if the href
    is non-empty, the text is non-empty and at least 5 characters long,
    the href begins neither with [#] nor with [javascript:], and the
    resolved URL, in lower case, contains "blog" and at least one of
    "post", "entry", "article". *)
Theorem classifier_emits_iff (w : world) (all_anchors : list anchor) :
  chrome_start (clock w) = None ->
  driver_get (S (clock w)) = None ->
  page_source (S (S (clock w))) = Ok all_anchors ->
  Forall resolvable all_anchors ->
  exists decisions : list (option (str * str)),
    res (fetch_blog_links w) = Ok (omap (fun dec => dec) decisions) /\
    Forall2 (fun a dec => forall link, dec = Some link <-> spec_emits a link)
      all_anchors decisions.
Proof.
  intros Hc Hd Hp Hall.
  destruct (classify_anchors_decisions all_anchors []
              (mkWorld (store w) (S (S (S (clock w))))) Hall)
    as (decisions & Hrun & Hspec).
  exists decisions. split; [|exact Hspec].
  rewrite <- (discover_links_page w all_anchors Hc Hd Hp) in Hrun.
  unfold fetch_blog_links, try_except. rewrite Hrun. exact Hrun.
Qed.

End Classifier.

(** * Further properties of the script *)

(** ** The retriever *)

Section Retriever.
Context {L : PyLib} {Sv : Services} {C : Config}.

Lemma res_try_except {A : Type} (m : M A) (h : exn -> M A) (w : world) :
  res (try_except m h w) =
  match res (m w) with
  | Ok a => Ok a
  | Raise e => res (h e (final (m w)))
  end.
Proof. unfold try_except. destruct (res (m w)) eqn:E; [exact E|reflexivity]. Qed.

Lemma generate_embedding_run (text : str) (w : world) :
  generate_embedding text w =
  mkRun (embeddings_create (clock w) text)
    (mkWorld (store w) (S (clock w))) [CallEmbed text].
Proof.
  unfold generate_embedding, bind, tick, emit, lift.
  cbn [res final events clock store].
  destruct (embeddings_create (clock w) text); reflexivity.
Qed.

(** One hit: one lookup, then the result line or the two error lines;
    the loop body never raises. *)
Lemma show_row_run (r : row) (w : world) :
  show_row r w =
  mkRun (Ok tt) (mkWorld (store w) (S (clock w)))
    (CallGet (row_id r)
       :: match join_at w 0 r with
          | Some (title, url, score) => [Print (MsgResult title url score)]
          | None =>
              [Print (MsgCouldNotFetch (row_id r));
               Print (MsgError
                        match get_fault (clock w) (row_id r) with
                        | Some tag => Exception tag
                        | None => DocumentNotFoundException
                        end)]
          end).
Proof.
  unfold show_row, try_except, bind, join_at.
  rewrite !collection_get_run. rewrite Nat.add_0_r.
  cbn [res final events].
  destruct (get_fault (clock w) (row_id r)); [reflexivity|].
  destruct (store w !! row_id r); reflexivity.
Qed.

Lemma show_rows_cons (r : row) (rest : list row) (w : world) :
  show_rows (r :: rest) w =
  let r' := show_rows rest (mkWorld (store w) (S (clock w))) in
  mkRun (res r') (final r') (events (show_row r w) ++ events r').
Proof.
  cbn [show_rows]. unfold bind. rewrite show_row_run. reflexivity.
Qed.

Lemma join_at_shift (w : world) (k : nat) (r : row) :
  join_at (mkWorld (store w) (S (clock w))) k r = join_at w (S k) r.
Proof. unfold join_at. cbn [clock store]. rewrite Nat.add_succ_r. reflexivity. Qed.

(** The loop over the hits never raises and never touches the store; it
    looks every hit up once, in rank order, shows the hits it could join
    in rank order, and reports each of the others as not fetched. *)
Lemma show_rows_rank_order (rows : list row) (w : world) :
  let r := show_rows rows w in
  res r = Ok tt /\
  store (final r) = store w /\
  get_keys (events r) = List.map row_id rows /\
  shown (events r) = omap (fun line => line) (imap (join_at w) rows) /\
  length (shown (events r)) + length (not_fetched (events r)) = length rows.
Proof.
  revert w. induction rows as [|r rest IH]; intros w.
  - repeat split.
  - rewrite show_rows_cons. cbv zeta. cbn [res final events].
    destruct (IH (mkWorld (store w) (S (clock w))))
      as (Hres & Hstore & Hkeys & Hshown & Hlen).
    rewrite show_row_run. cbn [events].
    unfold get_keys, shown, not_fetched in *.
    split; [exact Hres|]. split; [exact Hstore|].
    split; [|split].
    + rewrite omap_app, Hkeys.
      destruct (join_at w 0 r) as [[[? ?] ?]|]; reflexivity.
    + rewrite omap_app, Hshown, imap_cons.
      rewrite (imap_ext (join_at (mkWorld (store w) (S (clock w))))
                 (join_at w ∘ S) rest)
        by (intros; apply join_at_shift).
      destruct (join_at w 0 r) as [[[? ?] ?]|]; reflexivity.
    + rewrite !omap_app, !length_app.
      destruct (join_at w 0 r) as [[[? ?] ?]|]; cbn; lia.
Qed.

(** *** Computations that keep the store *)

Lemma keeps_ret {A : Type} (ok : event -> bool) (a : A) :
  keeps_store ok (ret a).
Proof. intros w. split; reflexivity. Qed.

Lemma keeps_raise {A : Type} (ok : event -> bool) (e : exn) :
  keeps_store ok (@raise A e).
Proof. intros w. split; reflexivity. Qed.

Lemma keeps_lift {A : Type} (ok : event -> bool) (r : result A) :
  keeps_store ok (lift r).
Proof. destruct r; [apply keeps_ret|apply keeps_raise]. Qed.

Lemma keeps_tick (ok : event -> bool) : keeps_store ok tick.
Proof. intros w. split; reflexivity. Qed.

Lemma keeps_get_store (ok : event -> bool) : keeps_store ok get_store.
Proof. intros w. split; reflexivity. Qed.

Lemma keeps_emit (ok : event -> bool) (e : event) :
  ok e = true -> keeps_store ok (emit e).
Proof. intros H w. cbn. rewrite H. split; reflexivity. Qed.

Lemma keeps_bind {A B : Type} (ok : event -> bool) (m : M A) (k : A -> M B) :
  keeps_store ok m -> (forall a, keeps_store ok (k a)) ->
  keeps_store ok (bind m k).
Proof.
  intros Hm Hk w. unfold bind. destruct (Hm w) as [Hs He].
  destruct (res (m w)) as [a|e]; cbn [final events]; [|auto].
  destruct (Hk a (final (m w))) as [Hs' He'].
  rewrite forallb_app, He, He', Hs', Hs. split; reflexivity.
Qed.

Lemma keeps_try_except {A : Type} (ok : event -> bool) (m : M A)
    (h : exn -> M A) :
  keeps_store ok m -> (forall e, keeps_store ok (h e)) ->
  keeps_store ok (try_except m h).
Proof.
  intros Hm Hh w. unfold try_except. destruct (Hm w) as [Hs He].
  destruct (res (m w)) as [a|e]; cbn [final events]; [auto|].
  destruct (Hh e (final (m w))) as [Hs' He'].
  rewrite forallb_app, He, He', Hs', Hs. split; reflexivity.
Qed.

(** Closing a goal [keeps_store ok m] along the structure of [m]. *)
Ltac keeps_steps :=
  repeat first
    [ apply keeps_ret | apply keeps_raise | apply keeps_lift
    | apply keeps_tick | apply keeps_get_store
    | apply keeps_emit; reflexivity
    | apply keeps_bind; [|intros ?]
    | apply keeps_try_except; [|intros ?]
    | match goal with
      | |- keeps_store _ (match ?x with _ => _ end) => destruct x
      end ].

Lemma keeps_collection_get (key : str) :
  keeps_store reads_only (collection_get key).
Proof. unfold collection_get. keeps_steps. Qed.

Lemma keeps_show_rows (rows : list row) :
  keeps_store reads_only (show_rows rows).
Proof.
  induction rows as [|r rest IH]; cbn [show_rows]; [apply keeps_ret|].
  apply keeps_bind; [|intros _; exact IH].
  unfold show_row, print. apply keeps_try_except.
  - apply keeps_bind; [apply keeps_collection_get|]. intros d. keeps_steps.
  - intros e. keeps_steps.
Qed.

Lemma filter_none {A : Type} (p q : A -> bool) (l : list A) :
  forallb q l = true -> (forall x, q x = true -> p x = false) ->
  List.filter p l = [].
Proof.
  intros Hq Hpq. induction l as [|x l IH]; [reflexivity|].
  cbn [forallb] in Hq. apply andb_true_iff in Hq as [Hx Hl].
  cbn [List.filter]. rewrite (Hpq x Hx). exact (IH Hl).
Qed.

Lemma upsert_keys_of_writes (evs : list event) :
  writes evs = [] -> upsert_keys evs = [].
Proof.
  unfold writes, upsert_keys. induction evs as [|e evs IH]; [reflexivity|].
  destruct e; cbn [List.filter is_write]; try discriminate; exact IH.
Qed.

Lemma reads_only_facts (evs : list event) :
  forallb reads_only evs = true ->
  writes evs = [] /\ upsert_keys evs = [] /\
  List.filter is_fetch_event evs = [].
Proof.
  intros He.
  assert (Hw : writes evs = []).
  { apply (filter_none _ _ _ He). intros e Hr.
    apply andb_true_iff in Hr as [Hr _]. apply negb_true_iff. exact Hr. }
  split; [exact Hw|]. split; [apply upsert_keys_of_writes; exact Hw|].
  apply (filter_none _ _ _ He). intros e Hr.
  apply andb_true_iff in Hr as [_ Hr]. apply negb_true_iff. exact Hr.
Qed.

Lemma search_blog_posts_reads_only (query : str) :
  keeps_store reads_only (search_blog_posts query).
Proof.
  unfold search_blog_posts, generate_embedding, print.
  apply keeps_bind; [keeps_steps|]. intros embedding.
  apply keeps_try_except; [|intros e; keeps_steps].
  apply keeps_bind; [apply keeps_tick|]. intros t.
  apply keeps_bind; [apply keeps_emit; reflexivity|]. intros _.
  apply keeps_bind; [apply keeps_lift|]. intros result.
  apply keeps_bind; [apply keeps_emit; reflexivity|]. intros _.
  apply keeps_bind; [apply keeps_show_rows|]. intros _.
  keeps_steps.
Qed.

(** X1: A search only reads: whatever the embedding provider, the search
    and the lookups answer, the store is as it was, the search has not
    once called the store's upsert, and it has started no browser and
    loaded no page. *)
Theorem search_is_read_only (query : str) (w : world) :
  let r := search_blog_posts query w in
  store (final r) = store w /\
  writes (events r) = [] /\
  upsert_keys (events r) = [] /\
  List.filter is_fetch_event (events r) = [].
Proof.
  destruct (search_blog_posts_reads_only query w) as [Hs He].
  cbv zeta. split; [exact Hs|]. apply reads_only_facts. exact He.
Qed.

(** X2: The result of a search is decided by the embedding of the query
    alone: when that call raises, its exception leaves
    [search_blog_posts] and nothing else has been called; otherwise the
    search returns normally, whatever the vector search and the lookups
    do. *)
Theorem search_status (query : str) (w : world) :
  let r := search_blog_posts query w in
  res r =
    match embeddings_create (clock w) query with
    | Ok _ => Ok tt
    | Raise e => Raise e
    end /\
  (forall e, embeddings_create (clock w) query = Raise e ->
             events r = [CallEmbed query]) /\
  (forall v e, embeddings_create (clock w) query = Ok v ->
               scope_search (S (clock w)) v = Raise e ->
               events r = [CallEmbed query; CallSearch v;
                           Print (MsgSearchFailed e)]).
Proof.
  cbv zeta. unfold search_blog_posts. split; [|split].
  - rewrite res_bind, generate_embedding_run. cbn [res final].
    destruct (embeddings_create (clock w) query) as [v|e]; [|reflexivity].
    rewrite res_try_except.
    match goal with
    | |- match res ?body with _ => _ end = _ =>
        destruct (res body) as [[]|]; reflexivity
    end.
  - intros e He. unfold bind at 1. rewrite generate_embedding_run.
    cbn [res final events]. rewrite He. reflexivity.
  - intros v e Hv He. unfold bind at 1. rewrite generate_embedding_run.
    cbn [res final events]. rewrite Hv.
    unfold try_except, bind, tick, emit, lift.
    cbn [res final events clock store]. rewrite He. reflexivity.
Qed.

Lemma search_blog_posts_events (query : str) (w : world) (v : list Q)
    (result : search_result) :
  embeddings_create (clock w) query = Ok v ->
  scope_search (S (clock w)) v = Ok result ->
  events (search_blog_posts query w) =
  [CallEmbed query; CallSearch v; Print MsgSearchResults]
    ++ events (show_rows (sr_rows result)
                 (mkWorld (store w) (S (S (clock w)))))
    ++ search_tail result.
Proof.
  intros Hv Hs. unfold search_blog_posts, search_tail.
  unfold bind at 1. rewrite generate_embedding_run.
  cbn [res final events]. rewrite Hv.
  unfold try_except, bind, tick, emit, print, lift.
  cbn [res final events clock store]. rewrite Hs.
  cbn [res final events ret emit].
  destruct (show_rows_rank_order (sr_rows result)
              (mkWorld (store w) (S (S (clock w))))) as (Hres & _).
  rewrite Hres. cbn [res final events].
  destruct (sr_rows_end result) as [e|]; cbn [res final events raise ret].
  - rewrite app_nil_r. reflexivity.
  - destruct (sr_total_rows result) as [n|e];
      cbn [res final events raise ret emit]; rewrite ?app_nil_r; reflexivity.
Qed.

(** X3: A search whose query is embedded and whose vector search answers
    shows the hits it can join, in the rank order of the service, with
    the title and URL of the stored record and the rounded score; a hit
    that cannot be joined is reported and the hits after it are still
    shown.  When the iteration over the hits ends normally, the last
    line is the total that the service reports. *)
Theorem search_presents_hits (query : str) (w : world) (v : list Q)
    (result : search_result) :
  embeddings_create (clock w) query = Ok v ->
  scope_search (S (clock w)) v = Ok result ->
  let r := search_blog_posts query w in
  let w2 := mkWorld (store w) (S (S (clock w))) in
  shown (events r) = omap (fun line => line) (imap (join_at w2) (sr_rows result)) /\
  get_keys (events r) = List.map row_id (sr_rows result) /\
  length (shown (events r)) + length (not_fetched (events r))
    = length (sr_rows result) /\
  (forall n, sr_rows_end result = None -> sr_total_rows result = Ok n ->
             List.last (events r) (Print MsgHelp) = Print (MsgTotal n)).
Proof.
  intros Hv Hs. cbv zeta.
  rewrite (search_blog_posts_events query w v result Hv Hs).
  destruct (show_rows_rank_order (sr_rows result)
              (mkWorld (store w) (S (S (clock w)))))
    as (_ & _ & Hkeys & Hshown & Hlen).
  assert (Htail : shown (search_tail result) = [] /\
                  get_keys (search_tail result) = [] /\
                  not_fetched (search_tail result) = []).
  { unfold search_tail.
    destruct (sr_rows_end result); [repeat split|].
    destruct (sr_total_rows result); repeat split. }
  destruct Htail as (Ht1 & Ht2 & Ht3).
  split; [|split; [|split]].
  - unfold shown in *. rewrite !omap_app, Ht1, app_nil_r. exact Hshown.
  - unfold get_keys in *. rewrite !omap_app, Ht2, app_nil_r, Hkeys.
    reflexivity.
  - unfold shown, not_fetched in *.
    rewrite !omap_app, Ht1, Ht3, !app_nil_r. exact Hlen.
  - intros n Hend Htotal. unfold search_tail. rewrite Hend, Htotal.
    rewrite !app_assoc. apply last_last.
Qed.

End Retriever.

(** ** The displayed score keeps the ranking *)

(** X4: A hit with a higher similarity score is never displayed with a
    lower percentage. *)
Theorem displayed_score_monotone (s1 s2 : Q) :
  (s1 <= s2)%Q ->
  (py_round2 (fmul s1 100) <= py_round2 (fmul s2 100))%Q.
Proof.
  intros H. unfold py_round2, fmul. apply binary64_mono.
  unfold Qdiv. apply Qmult_le_compat_r; [|discriminate].
  rewrite <- Zle_Qle. apply round_half_even_mono.
  apply Qmult_le_compat_r; [|discriminate].
  apply binary64_mono. apply Qmult_le_compat_r; [exact H|discriminate].
Qed.

(** ** The accounting of a batch *)

Lemma fetch_events_no_calls (evs : list event) :
  forallb is_fetch_event evs = true ->
  get_keys evs = [] /\ embed_texts evs = [] /\ upsert_keys evs = [] /\
  List.filter is_search evs = [] /\ checking evs = [].
Proof.
  unfold get_keys, embed_texts, upsert_keys, checking.
  induction evs as [|e evs IH]; [repeat split|].
  cbn [forallb]. intros H. apply andb_true_iff in H as [He H].
  destruct (IH H) as (H1 & H2 & H3 & H4 & H5).
  destruct e as [m| | | | | | |]; try discriminate;
    try destruct m; try discriminate; cbn;
    unfold omap in *; rewrite ?H1, ?H2, ?H3, ?H4, ?H5; repeat split.
Qed.

Section Accounting.
Context {L : PyLib} {Sv : Services} {C : Config}.

(** X5: In a batch, every item is looked up at most once and in the
    order of the links; the embedding provider is called once for every
    item that is reported [Stored] or [Failed] and never for a skipped
    one, always with the title of a link; a write is attempted only
    after an embedding call, under the URL of a link; the vector search
    is never called. *)
Theorem batch_accounting (n i : nat) (links : list (str * str)) (w : world) :
  let evs := events (process_links n i links w) in
  get_keys evs = take (length (get_keys evs)) (List.map fst links) /\
  length (embed_texts evs) = not_skipped (outcomes evs) /\
  length (upsert_keys evs) <= length (embed_texts evs) /\
  Forall (fun t => t ∈ List.map snd links) (embed_texts evs) /\
  Forall (fun k => k ∈ List.map fst links) (upsert_keys evs) /\
  List.filter is_search evs = [].
Proof.
  cbv zeta. revert i w.
  induction links as [|[url title] rest IH]; intros i w.
  - repeat split; constructor.
  - rewrite process_links_cons. unfold bind.
    assert (Hin : forall (A : Type) (f : str * str -> A) xs,
              Forall (fun t => t ∈ List.map f rest) xs ->
              Forall (fun t => t ∈ f (url, title) :: List.map f rest) xs).
    { intros A f xs Hxs. eapply Forall_impl; [exact Hxs|].
      intros t Ht. apply elem_of_cons. auto. }
    unfold not_skipped in *.
    link_cases w url title;
      try (match goal with
           | |- context [process_links n (S i) rest ?w'] =>
               destruct (IH (S i) w') as (H1 & H2 & H3 & H4 & H5 & H6)
           end);
      repeat match goal with |- _ /\ _ => split end;
      first [ exact H6
            | reflexivity
            | f_equal; exact H1
            | simpl in *; lia
            | repeat (apply Forall_cons; split; [apply elem_of_cons; auto|]);
              first [ apply (Hin _ snd); assumption
                    | apply (Hin _ fst); assumption
                    | constructor ] ].
Qed.

End Accounting.

(** ** What a scrape run writes *)

Lemma scrape_events_calls (evf evl : list event) (n : nat) :
  forallb is_fetch_event evf = true ->
  let evs := Print MsgStartingScrape :: evf ++ Print (MsgFoundLinks n) :: evl in
  get_keys evs = get_keys evl /\ embed_texts evs = embed_texts evl /\
  upsert_keys evs = upsert_keys evl /\
  List.filter is_search evs = List.filter is_search evl /\
  checking evs = checking evl.
Proof.
  intros Hq evs. subst evs.
  destruct (fetch_events_no_calls evf Hq) as (H1 & H2 & H3 & H4 & H5).
  replace (Print MsgStartingScrape :: evf ++ Print (MsgFoundLinks n) :: evl)
    with ([Print MsgStartingScrape] ++ evf ++ [Print (MsgFoundLinks n)] ++ evl)
    by reflexivity.
  unfold get_keys, embed_texts, upsert_keys, checking in *.
  rewrite !omap_app, !List.filter_app, H1, H2, H3, H4, H5.
  repeat split.
Qed.

Lemma upsert_keys_absent (k : str) (evs : list event) :
  (forall d, CallUpsert k d ∉ evs) -> k ∉ upsert_keys evs.
Proof.
  induction evs as [|e evs IH]; intros H; [apply not_elem_of_nil|].
  assert (IH' : k ∉ upsert_keys evs).
  { apply IH. intros d Hd. apply (H d). right. exact Hd. }
  destruct e as [m| |page| |text|key|key d|v]; try exact IH'.
  change (k ∉ key :: upsert_keys evs).
  apply not_elem_of_cons. split; [|exact IH'].
  intros ->. apply (H d). left.
Qed.

Lemma well_formed_insert (s : gmap str doc) (url title : str)
    (embedding : list Q) :
  well_formed s -> well_formed (<[url := blog_post_doc url title embedding]> s).
Proof.
  intros H k d Hk. apply lookup_insert_Some in Hk as [[<- <-]|[_ Hk]].
  - unfold blog_post_doc. split.
    + apply lookup_insert_eq.
    + rewrite lookup_insert_ne by discriminate. apply lookup_insert_eq.
  - exact (H k d Hk).
Qed.

Section Writes.
Context {L : PyLib} {Sv : Services} {C : Config}.

Lemma process_links_writes_once (n i : nat) (links : list (str * str))
    (w : world) :
  (forall t k e, upsert_fault t k <> Some (e, false)) ->
  NoDup (upsert_keys (events (process_links n i links w))).
Proof.
  intros Happ. revert i w.
  induction links as [|[url title] rest IH]; intros i w; [constructor|].
  rewrite process_links_cons. unfold bind.
  assert (Hnew : forall i v c,
            NoDup (url :: upsert_keys (events (process_links n i rest
              (mkWorld (<[url := blog_post_doc url title v]> (store w)) c))))).
  { intros j v c. apply NoDup_cons. split; [|apply IH].
    apply upsert_keys_absent.
    eapply (process_links_frame n j rest). apply lookup_insert_eq. }
  link_cases w url title;
    first [ apply NoDup_nil_2 | apply IH | apply Hnew
          | exfalso; eapply Happ; eassumption ].
Qed.

Lemma process_links_store (n i : nat) (links : list (str * str)) (w : world) :
  let r := process_links n i links w in
  (well_formed (store w) -> well_formed (store (final r))) /\
  (forall k, is_Some (store (final r) !! k) ->
     is_Some (store w !! k) \/ k ∈ List.map fst links).
Proof.
  cbv zeta. revert i w.
  induction links as [|[url title] rest IH]; intros i w.
  - split; [auto|]. intros k Hk. left. exact Hk.
  - rewrite process_links_cons. unfold bind.
    assert (Hsame : forall i c,
      let r := process_links n i rest (mkWorld (store w) c) in
      (well_formed (store w) -> well_formed (store (final r))) /\
      (forall k, is_Some (store (final r) !! k) ->
         is_Some (store w !! k) \/ k ∈ url :: List.map fst rest)).
    { intros j c. destruct (IH j (mkWorld (store w) c)) as [H1 H2].
      split; [exact H1|]. intros k Hk.
      destruct (H2 k Hk) as [H|H]; [left; exact H|right; right; exact H]. }
    assert (Hnew : forall i v c,
      let r := process_links n i rest
                 (mkWorld (<[url := blog_post_doc url title v]> (store w)) c) in
      (well_formed (store w) -> well_formed (store (final r))) /\
      (forall k, is_Some (store (final r) !! k) ->
         is_Some (store w !! k) \/ k ∈ url :: List.map fst rest)).
    { intros j v c.
      destruct (IH j (mkWorld (<[url := blog_post_doc url title v]> (store w))
                        c)) as [H1 H2].
      split.
      - intros Hwf. apply H1. apply well_formed_insert. exact Hwf.
      - intros k Hk. destruct (H2 k Hk) as [H|H].
        + cbn [store] in H. destruct (decide (k = url)) as [->|Hne].
          * right. left.
          * left. rewrite lookup_insert_ne in H by auto. exact H.
        + right. right. exact H. }
    link_cases w url title;
      first [ apply Hsame | apply Hnew
            | split; [auto|]; intros k Hk; left; exact Hk ].
Qed.

Lemma process_links_growth (n i : nat) (links : list (str * str))
    (w : world) :
  (forall t k e, upsert_fault t k <> Some (e, true)) ->
  let r := process_links n i links w in
  size (store (final r)) = size (store w) + stored_count (outcomes (events r)).
Proof.
  intros Hfail. cbv zeta. revert i w. unfold stored_count.
  induction links as [|[url title] rest IH]; intros i w.
  - cbn. lia.
  - rewrite process_links_cons. unfold bind.
    link_cases w url title;
      try (exfalso; eapply Hfail; eassumption);
      try rewrite IH; cbn [store];
      try rewrite (map_size_insert_None _ _ _ Hlook);
      cbn; lia.
Qed.

(** X6: When no write fails without taking effect, a scrape run writes
    no key twice, however often the page shows the same URL: after the
    first write the key is in the store and a later item with that URL
    is skipped. *)
Theorem no_key_written_twice (w : world) :
  (forall t k e, upsert_fault t k <> Some (e, false)) ->
  NoDup (upsert_keys (events (scrape_and_store w))).
Proof.
  intros Happ.
  destruct (fetch_blog_links_quiet w) as ([links Hl] & _ & _ & Hq).
  rewrite (scrape_and_store_run w links Hl). cbn [events].
  destruct (scrape_events_calls (events (fetch_blog_links w))
              (events (process_links (length links) 1 links
                         (final (fetch_blog_links w))))
              (length links) Hq) as (_ & _ & -> & _).
  apply process_links_writes_once. exact Happ.
Qed.

(** X7: A scrape run keeps the store well formed -- every record a blog
    post filed under its own URL -- and the only keys it adds are URLs
    of the links that discovery returned. *)
Theorem scrape_keeps_store_well_formed (w : world)
    (links : list (str * str)) :
  res (fetch_blog_links w) = Ok links ->
  let s' := store (final (scrape_and_store w)) in
  (well_formed (store w) -> well_formed s') /\
  (forall k, is_Some (s' !! k) ->
     is_Some (store w !! k) \/ k ∈ List.map fst links).
Proof.
  intros Hl. cbv zeta.
  destruct (fetch_blog_links_quiet w) as (_ & Hs & _ & _).
  rewrite (scrape_and_store_run w links Hl). cbn [final].
  rewrite <- Hs. apply process_links_store.
Qed.

(** X8: When a write that fails has no effect, the store grows by
    exactly one record for every item reported as stored: the number of
    records after a scrape run is the number before it plus the number
    of [Stored] outcomes. *)
Theorem store_grows_by_stored (w : world) :
  (forall t k e, upsert_fault t k <> Some (e, true)) ->
  let r := scrape_and_store w in
  size (store (final r)) = size (store w) + stored_count (outcomes (events r)).
Proof.
  intros Hfail. cbv zeta.
  destruct (fetch_blog_links_quiet w) as ([links Hl] & Hs & _ & Hq).
  rewrite (scrape_and_store_run w links Hl). cbn [final events].
  destruct (scrape_events_loop (events (fetch_blog_links w))
              (events (process_links (length links) 1 links
                         (final (fetch_blog_links w))))
              (length links) Hq) as (-> & _).
  rewrite <- Hs. apply process_links_growth. exact Hfail.
Qed.

(** X9: One call of [store_embedding] changes no other key than the URL
    it is given; when it returns, the record under that URL is the new
    blog post, whatever was there before; when it raises, the record
    under that URL is either the old one or the new one. *)
Theorem store_embedding_one_key (url title : str) (embedding : list Q)
    (w : world) :
  let r := store_embedding url title embedding w in
  (forall k, k <> url -> store (final r) !! k = store w !! k) /\
  (res r = Ok tt ->
   store (final r) !! url = Some (blog_post_doc url title embedding)) /\
  (store (final r) !! url = store w !! url \/
   store (final r) !! url = Some (blog_post_doc url title embedding)) /\
  (well_formed (store w) -> well_formed (store (final r))).
Proof.
  cbv zeta. unfold store_embedding. rewrite collection_upsert_run.
  cbn [res final store].
  destruct (upsert_fault (clock w) url) as [[e [|]]|];
    (split; [|split; [|split]]);
    try (intros k Hk; rewrite ?lookup_insert_ne by auto; reflexivity);
    try discriminate;
    try (intros _; apply lookup_insert_eq);
    try (right; apply lookup_insert_eq);
    try (left; reflexivity);
    try (apply well_formed_insert);
    auto.
Qed.

(** X10: Only a failed lookup makes a scrape run fail: the run returns,
    and the program exits with status 0, whenever the store answers
    every lookup -- whatever the browser, the page, the embedding
    provider and the writes do -- and an exception that leaves the run
    is the one a lookup raised. *)
Theorem scrape_fails_only_on_lookup (a : args) (w : world) :
  arg_scrape a = true ->
  let r := main a w in
  ((forall t url, clock w <= t -> get_fault t url = None) ->
   res r = Ok tt /\ exit_status r = 0) /\
  (forall e, res r = Raise e ->
     exists t url tag,
       clock w <= t /\ get_fault t url = Some tag /\ e = Exception tag).
Proof.
  intros Ha. cbv zeta. unfold main. rewrite Ha.
  destruct (fetch_blog_links_quiet w) as ([links Hl] & _ & Hclock & _).
  unfold exit_status. rewrite (scrape_and_store_run w links Hl). cbn [res].
  split.
  - intros Hget.
    destruct (process_links_completes (length links) 1 links
                (final (fetch_blog_links w))) as [-> _]; [|auto].
    intros t url Ht. apply Hget. lia.
  - intros e He.
    destruct (process_links_raises (length links) 1 links
                (final (fetch_blog_links w)) e He)
      as ((t & url & tag & Ht & Hf & ->) & _).
    exists t, url, tag. repeat split; [lia|exact Hf].
Qed.

Lemma process_links_checking (n i : nat) (links : list (str * str))
    (w : world) :
  (forall t url, clock w <= t -> get_fault t url = None) ->
  checking (events (process_links n i links w)) =
  imap (fun k link => (i + k, n, snd link)) links.
Proof.
  revert i w. induction links as [|[url title] rest IH]; intros i w Hget.
  - reflexivity.
  - rewrite process_links_cons. unfold bind.
    assert (Hnext : forall w', clock w <= clock w' ->
              (i + 0, n, title)
                :: checking (events (process_links n (S i) rest w')) =
              imap (fun k link => (i + k, n, snd link)) ((url, title) :: rest)).
    { intros w' Hw'. cbn [imap snd]. f_equal.
      rewrite IH by (intros t k Ht; apply Hget; lia).
      apply imap_ext. intros k link _. cbn. repeat f_equal. lia. }
    rewrite Nat.add_0_r in Hnext.
    link_cases w url title;
      first [ rewrite Hget in Hfault by lia; discriminate
            | apply Hnext; cbn [clock]; lia ].
Qed.

(** X11: When the store answers every lookup, a scrape run prints one
    progress line per link, in the order of the links, numbered from 1
    to the number of links, each with that number of links as the total
    and with the title of its link. *)
Theorem progress_lines_numbered (w : world) (links : list (str * str)) :
  res (fetch_blog_links w) = Ok links ->
  (forall t url, clock w <= t -> get_fault t url = None) ->
  checking (events (scrape_and_store w)) =
  imap (fun k link => (S k, length links, snd link)) links.
Proof.
  intros Hl Hget.
  destruct (fetch_blog_links_quiet w) as (_ & _ & Hclock & Hq).
  rewrite (scrape_and_store_run w links Hl). cbn [events].
  destruct (scrape_events_calls (events (fetch_blog_links w))
              (events (process_links (length links) 1 links
                         (final (fetch_blog_links w))))
              (length links) Hq) as (_ & _ & _ & _ & ->).
  apply process_links_checking. intros t url Ht. apply Hget. lia.
Qed.

End Writes.

(** ** What link discovery answers with *)

Section Discovery.
Context {L : PyLib} {Sv : Services} {C : Config}.

Lemma classify_anchors_ok_head (a : anchor) (rest : list anchor)
    (links out : list (str * str)) (w : world) :
  res (classify_anchors (a :: rest) links w) = Ok out -> resolvable a.
Proof.
  intros H href Hh Hskip. cbn [classify_anchors] in H.
  rewrite Hh, Hskip, res_bind in H.
  destruct (resolve href) as [full_url|e]; [eauto|].
  cbn [lift raise res] in H. discriminate.
Qed.

Lemma classify_anchors_ok_resolvable (all_anchors : list anchor)
    (links out : list (str * str)) (w : world) :
  res (classify_anchors all_anchors links w) = Ok out ->
  Forall resolvable all_anchors.
Proof.
  revert links. induction all_anchors as [|a rest IH]; intros links H.
  - constructor.
  - pose proof (classify_anchors_ok_head a rest links out w H) as Ha.
    constructor; [exact Ha|].
    destruct (classify_anchors_step a rest links w Ha) as (dec & _ & Hstep).
    rewrite Hstep in H. exact (IH _ H).
Qed.

Lemma start_headless_browser_fails (w : world) (e : exn) :
  chrome_start (clock w) = Some e ->
  res (start_headless_browser w) = Raise e.
Proof.
  intros Hc. unfold start_headless_browser, bind, tick, emit, print, raise.
  cbn [res final events clock store]. rewrite Hc. reflexivity.
Qed.

Lemma discover_links_res (w : world) :
  res (discover_links w) =
  match chrome_start (clock w) with
  | Some e => Raise e
  | None =>
      match driver_get (S (clock w)) with
      | Some e => Raise e
      | None =>
          match page_source (S (S (clock w))) with
          | Raise e => Raise e
          | Ok all_anchors =>
              res (classify_anchors all_anchors []
                     (mkWorld (store w) (S (S (S (clock w))))))
          end
      end
  end.
Proof.
  destruct (chrome_start (clock w)) as [e|] eqn:Hc.
  { unfold discover_links.
    rewrite res_bind, (start_headless_browser_fails w e Hc). reflexivity. }
  destruct (driver_get (S (clock w))) as [e|] eqn:Hd.
  { unfold discover_links.
    rewrite res_bind, (start_headless_browser_ok w Hc). cbn [res final].
    rewrite res_bind. cbn [print emit res final].
    rewrite res_bind. cbn [tick res final clock store].
    rewrite res_bind. cbn [emit res final].
    rewrite res_bind, Hd. cbn [raise res]. reflexivity. }
  destruct (page_source (S (S (clock w)))) as [all_anchors|e] eqn:Hp.
  { apply discover_links_page; assumption. }
  unfold discover_links.
  rewrite res_bind, (start_headless_browser_ok w Hc). cbn [res final].
  rewrite res_bind. cbn [print emit res final].
  rewrite res_bind. cbn [tick res final clock store].
  rewrite res_bind. cbn [emit res final].
  rewrite res_bind, Hd. cbn [ret res final].
  rewrite res_bind. cbn [print emit res final].
  rewrite res_bind. cbn [tick res final clock store].
  rewrite res_bind. cbn [emit res final].
  rewrite res_bind, Hp. cbn [lift raise res]. reflexivity.
Qed.

(** X12: Link discovery answers all or nothing: a list of links that is
    not empty is the classification of every anchor of the rendered
    page, in document order -- each anchor emitted exactly when it meets
    the conditions -- and resolving raised on no anchor; there is no
    partial answer. *)
Theorem fetched_links_all_or_nothing (w : world) (links : list (str * str)) :
  res (fetch_blog_links w) = Ok links ->
  links <> [] ->
  exists (all_anchors : list anchor) (decisions : list (option (str * str))),
    page_source (S (S (clock w))) = Ok all_anchors /\
    Forall resolvable all_anchors /\
    links = omap (fun dec => dec) decisions /\
    Forall2 (fun a dec => forall link, dec = Some link <-> spec_emits a link)
      all_anchors decisions.
Proof.
  intros Hl Hne. unfold fetch_blog_links in Hl.
  rewrite res_try_except in Hl.
  destruct (res (discover_links w)) as [out|e] eqn:Hd.
  2:{ unfold bind, print, emit, ret in Hl. cbn [res final events] in Hl.
      congruence. }
  assert (out = links) by congruence. subst out.
  rewrite discover_links_res in Hd.
  destruct (chrome_start (clock w)); [discriminate|].
  destruct (driver_get (S (clock w))); [discriminate|].
  destruct (page_source (S (S (clock w)))) as [all_anchors|]; [|discriminate].
  pose proof (classify_anchors_ok_resolvable _ _ _ _ Hd) as Hall.
  destruct (classify_anchors_decisions all_anchors []
              (mkWorld (store w) (S (S (S (clock w))))) Hall)
    as (decisions & Hrun & Hspec).
  exists all_anchors, decisions. repeat split; try assumption.
  rewrite Hrun in Hd. cbn [app] in Hd. congruence.
Qed.

(** ** Hrefs that leave the base origin *)

(** X13: An href that [urlparse] reads with another scheme than the
    base's, or with a scheme that does not allow relative references, is
    passed on as it is. *)
Theorem foreign_scheme_href_unchanged (href : str)
    (b r : UrlParse.ParseResult) :
  UrlParse.urlparse BASE_URL [] = Ok b ->
  href <> [] ->
  (startswith (u "http://") href || startswith (u "https://") href) = false ->
  UrlParse.urlparse href (UrlParse.scheme b) = Ok r ->
  UrlParse.scheme r <> UrlParse.scheme b \/
  UrlParse.mem (UrlParse.scheme r) UrlParse.uses_relative = false ->
  resolve href = Ok href.
Proof.
  intros Hb Hne Habs Hr Hs.
  unfold resolve. rewrite Habs. cbn [negb]. unfold UrlParse.urljoin.
  destruct (UrlParse.nonempty BASE_URL); cbn [negb]; [|reflexivity].
  destruct href as [|c t]; [congruence|]. cbn [UrlParse.nonempty negb].
  rewrite Hb. cbn [rbind]. rewrite Hr. cbn [rbind].
  destruct Hs as [Hs|Hs].
  - unfold Str.eqb at 1. rewrite bool_decide_eq_false_2 by exact Hs.
    reflexivity.
  - rewrite Hs. rewrite orb_true_r. reflexivity.
Qed.

Lemma urlparse_empty_netloc (sch : str) (r : UrlParse.ParseResult) :
  UrlParse.urlparse [] sch = Ok r -> UrlParse.netloc r = [].
Proof.
  unfold UrlParse.urlparse, UrlParse.urlsplit. cbv zeta.
  change (UrlParse.remove_unsafe (lstrip UrlParse.is_c0_or_space []))
    with (@nil N).
  unfold UrlParse.split_scheme. cbn [find].
  change (startswith (u "//") []) with false. cbn [rbind].
  change (has (ch "#") []) with false. cbv iota beta.
  change (has (ch "?") []) with false. cbv iota beta.
  destruct (UrlParse.checknetloc []); cbn [rbind]; [|discriminate].
  cbn [UrlParse.s_path UrlParse.s_scheme UrlParse.s_netloc UrlParse.s_query
       UrlParse.s_fragment].
  change (has (ch ";") []) with false. rewrite andb_false_r.
  intros [= <-]. reflexivity.
Qed.

(** X14: A protocol-relative href -- one that [urlparse] reads with a
    network location of its own and no other scheme than the base's --
    resolves to a URL anchored at the base's scheme and the href's own
    host, not at the base origin. *)
Theorem protocol_relative_href_keeps_host (href : str)
    (b r : UrlParse.ParseResult) :
  base_is_origin b ->
  (startswith (u "http://") href || startswith (u "https://") href) = false ->
  UrlParse.urlparse href (UrlParse.scheme b) = Ok r ->
  UrlParse.scheme r = UrlParse.scheme b ->
  UrlParse.nonempty (UrlParse.netloc r) = true ->
  resolve href = Ok (UrlParse.urlunparse r) /\
  anchored_at (UrlParse.scheme b ++ u "://" ++ UrlParse.netloc r)
    (UrlParse.urlunparse r) = true.
Proof.
  intros (Hb & Hbase & Hsch & Hrel & Hnl) Habs Hr Hs Hn.
  assert (Hhref : UrlParse.nonempty href = true).
  { destruct href as [|c t]; [|reflexivity].
    rewrite (urlparse_empty_netloc _ _ Hr) in Hn. discriminate. }
  split.
  - unfold resolve. rewrite Habs. cbn [negb]. unfold UrlParse.urljoin.
    destruct (nonempty_true _ Hsch) as (c & t & Hc).
    assert (Hne : UrlParse.nonempty BASE_URL = true)
      by (rewrite Hbase, Hc; reflexivity).
    rewrite Hne, Hhref. cbn [negb].
    rewrite Hb. cbn [rbind]. rewrite Hr. cbn [rbind].
    rewrite Hs, Hn, Hrel, (uses_relative_netloc _ Hrel).
    unfold Str.eqb at 1. rewrite bool_decide_eq_true_2 by reflexivity.
    reflexivity.
  - destruct r as [sch nl p pa q f]. cbn [UrlParse.scheme UrlParse.netloc] in *.
    subst sch. apply urlunparse_anchored; assumption.
Qed.

End Discovery.

(** ** Failures before the page is read *)

Lemma bind_ok_run {A B : Type} (m : M A) (k : A -> M B) (w w' : world)
    (a : A) (evs : list event) :
  m w = mkRun (Ok a) w' evs ->
  bind m k w =
  mkRun (res (k a w')) (final (k a w')) (evs ++ events (k a w')).
Proof. intros H. unfold bind. rewrite H. reflexivity. Qed.

Lemma bind_raise_run {A B : Type} (m : M A) (k : A -> M B) (w w' : world)
    (e : exn) (evs : list event) :
  m w = mkRun (Raise e) w' evs ->
  bind m k w = mkRun (Raise e) w' evs.
Proof. intros H. unfold bind. rewrite H. reflexivity. Qed.

Section Browser.
Context {L : PyLib} {Sv : Services} {C : Config}.

Lemma start_headless_browser_fails_run (w : world) (e : exn) :
  chrome_start (clock w) = Some e ->
  start_headless_browser w =
  mkRun (Raise e) (mkWorld (store w) (S (clock w)))
    [CallChrome; Print (MsgWebDriverFailed e)].
Proof.
  intros Hc. unfold start_headless_browser, bind, tick, emit, print, raise.
  cbn [res final events clock store]. rewrite Hc. reflexivity.
Qed.

(** X15: Discovery stops at the first failure.  When the browser does
    not start, [start_headless_browser] prints its diagnostic and raises
    again, [fetch_blog_links] prints its own and answers with no links,
    and the page is never requested.  When the browser starts and
    loading the page fails, the page source is never read and the answer
    is again no links. *)
Theorem discovery_stops_at_first_failure (w : world) :
  (forall e, chrome_start (clock w) = Some e ->
     fetch_blog_links w =
     mkRun (Ok []) (mkWorld (store w) (S (clock w)))
       [CallChrome; Print (MsgWebDriverFailed e); Print (MsgFetchError e)]) /\
  (forall e, chrome_start (clock w) = None ->
     driver_get (S (clock w)) = Some e ->
     fetch_blog_links w =
     mkRun (Ok []) (mkWorld (store w) (S (S (clock w))))
       [CallChrome; Print (MsgAccessing IFRAME_URL); CallDriverGet IFRAME_URL;
        Print (MsgFetchError e)]).
Proof.
  split.
  - intros e Hc. unfold fetch_blog_links, try_except, discover_links.
    rewrite (bind_raise_run _ _ _ _ _ _ (start_headless_browser_fails_run w e Hc)).
    reflexivity.
  - intros e Hc Hd. unfold fetch_blog_links, try_except, discover_links.
    rewrite (bind_ok_run _ _ _ _ _ _ (start_headless_browser_ok w Hc)).
    rewrite (bind_ok_run (print _) _ _ _ tt [Print (MsgAccessing IFRAME_URL)]
               eq_refl).
    rewrite (bind_ok_run tick _ (mkWorld (store w) (S (clock w)))
               (mkWorld (store w) (S (S (clock w)))) (S (clock w)) [] eq_refl).
    rewrite (bind_ok_run (emit _) _ _ _ tt [CallDriverGet IFRAME_URL] eq_refl).
    rewrite Hd.
    rewrite (bind_raise_run (raise e) _ _ _ e [] eq_refl).
    reflexivity.
Qed.

(** X16: The base that the module computes from a configured URL is a
    bare origin: when the URL has a scheme that allows relative
    references and a network location, [BASE_URL] is that scheme and
    that network location and [urlparse] reads it back with nothing else
    -- the path, the parameters, the query and the fragment of the
    configured URL are dropped. *)
Theorem base_url_is_bare_origin (iframe_url : str)
    (PARSED : UrlParse.ParseResult) :
  module_init (Some iframe_url) = Ok C ->
  UrlParse.urlparse iframe_url [] = Ok PARSED ->
  UrlParse.nonempty (UrlParse.scheme PARSED) = true ->
  UrlParse.mem (UrlParse.scheme PARSED) UrlParse.uses_relative = true ->
  UrlParse.nonempty (UrlParse.netloc PARSED) = true ->
  BASE_URL = UrlParse.scheme PARSED ++ u "://" ++ UrlParse.netloc PARSED /\
  UrlParse.urlparse BASE_URL [] =
  Ok (UrlParse.mkParse (UrlParse.scheme PARSED) (UrlParse.netloc PARSED)
        [] [] [] []).
Proof.
  intros Hinit Hparse Hne Hmem Hnl.
  destruct (module_init_origin iframe_url PARSED Hinit Hparse Hne Hmem Hnl)
    as (Hb & Hbase & _).
  split; [exact Hbase|exact Hb].
Qed.

End Browser.

(** ** The two modes of the command line *)

Section Modes.
Context {L : PyLib} {Sv : Services} {C : Config}.

Lemma process_links_no_search (n i : nat) (links : list (str * str))
    (w : world) :
  List.filter is_search (events (process_links n i links w)) = [].
Proof.
  revert i w. induction links as [|[url title] rest IH]; intros i w.
  - reflexivity.
  - rewrite process_links_cons. unfold bind.
    link_cases w url title; first [reflexivity | apply IH].
Qed.

(** X17: The two modes do not mix.  With [--scrape] the program never
    calls the vector search, whatever [--search] says.  Without
    [--scrape] it only reads, whether it searches or prints the help:
    the store is as it was, there is no write, and no browser is
    started. *)
Theorem main_modes_exclusive (a : args) (w : world) :
  let r := main a w in
  (arg_scrape a = true -> List.filter is_search (events r) = []) /\
  (arg_scrape a = false ->
   store (final r) = store w /\ writes (events r) = [] /\
   List.filter is_fetch_event (events r) = []).
Proof.
  cbv zeta. unfold main. split; intros Ha; rewrite Ha.
  - destruct (fetch_blog_links_quiet w) as ([links Hl] & _ & _ & Hq).
    rewrite (scrape_and_store_run w links Hl). cbn [events].
    destruct (scrape_events_calls (events (fetch_blog_links w))
                (events (process_links (length links) 1 links
                           (final (fetch_blog_links w))))
                (length links) Hq) as (_ & _ & _ & -> & _).
    apply process_links_no_search.
  - assert (H : keeps_store reads_only
                  match arg_search a with
                  | Some q =>
                      if UrlParse.nonempty q then search_blog_posts q
                      else print MsgHelp
                  | None => print MsgHelp
                  end).
    { destruct (arg_search a) as [q|];
        [destruct (UrlParse.nonempty q)|];
        first [ apply search_blog_posts_reads_only
              | unfold print; apply keeps_emit; reflexivity ]. }
    destruct (H w) as [Hs He]. split; [exact Hs|].
    destruct (reads_only_facts _ He) as (Hw & _ & Hf). auto.
Qed.

End Modes.

(** * The properties on concrete runs *)

(** ** The scenarios of the specification *)

Example scenario_classifier :
  res (@fetch_blog_links ascii_lib (quiet_services scenario_page) x_com
         empty_world)
  = Ok [(u "https://x.com/blog/post/42", u "My New Post")].
Proof. vm_compute. reflexivity. Qed.

Example scenario_exists_after_pass :
  let Sv := quiet_services scenario_page in
  let url := u "https://x.com/blog/post/42" in
  let r1 := @scrape_and_store ascii_lib Sv x_com empty_world in
  res (@document_exists Sv url empty_world) = Ok false /\
  res (@document_exists Sv url (final r1)) = Ok true /\
  outcomes (events (@scrape_and_store ascii_lib Sv x_com (final r1)))
    = [Skipped].
Proof. vm_compute. repeat split. Qed.

Example urljoin_examples :
  @UrlParse.urljoin ascii_lib (u "https://x.com/a/b/c") (u "../d;p?q#f")
    = Ok (u "https://x.com/a/d;p?q#f") /\
  @UrlParse.urljoin ascii_lib (u "https://x.com") (u "mailto:blog@post")
    = Ok (u "mailto:blog@post") /\
  @UrlParse.urljoin ascii_lib (u "https://x.com/a/b/c") (u "HTTPS://Other/blog")
    = Ok (u "https://Other/blog") /\
  @UrlParse.urljoin ascii_lib (u "https://x.com") (u "//[")
    = Raise ValueError.
Proof. vm_compute. repeat split. Qed.

(** The guard against script links is the literal prefix
    [javascript:]: another spelling passes it, and the link is emitted
    when its text has the words. *)
Example javascript_guard_is_literal :
  res (@fetch_blog_links ascii_lib
         (quiet_services
            [mkAnchor (Some (u "JavaScript:open('/blog/post/7')"))
               (u "Open the post") false])
         x_com empty_world)
  = Ok [(u "JavaScript:open('/blog/post/7')", u "Open the post")].
Proof. vm_compute. reflexivity. Qed.

Example round_examples :
  (py_round2 (fmul (1 # 8) 100) == 25 # 2)%Q /\
  (py_round2 (binary64 (2675 # 1000)) == binary64 (267 # 100))%Q /\
  (py_round2 (1 # 8) == binary64 (12 # 100))%Q.
Proof. vm_compute. repeat split. Qed.

(** ** Idempotence and frame *)



Lemma existing_records_untouched_witness :
  let r := @scrape_and_store ascii_lib (quiet_services three_posts) x_com
             old_world in
  outcomes (events r) = [Skipped; Stored; Stored] /\
  store (final r) !! u "https://x.com/blog/post/1" = Some old_record /\
  (forall d', CallUpsert (u "https://x.com/blog/post/1") d' ∉ events r).
Proof.
  intros r. split; [vm_compute; reflexivity|].
  destruct (@existing_records_untouched ascii_lib (quiet_services three_posts)
              x_com old_world (u "https://x.com/blog/post/1") old_record)
    as (Hsame & Hnowrite & _); [vm_compute; reflexivity|].
  split; [exact Hsame|exact Hnowrite].
Defined.

(** ** Failures *)

(** C3, as stated, fails: the lookup of the second of three items fails
    (a store error, not "not found"); the exception leaves the loop and
    the run, the second and third item get no outcome. *)
Lemma lookup_failure_aborts_batch :
  let Sv := faulty_services three_posts never (at_tick 6 503) never never in
  let r := @scrape_and_store ascii_lib Sv x_com empty_world in
  res (@fetch_blog_links ascii_lib Sv x_com empty_world) = Ok three_links /\
  res r = Raise (Exception 503) /\
  outcomes (events r) = [Stored] /\
  exit_status r = 1.
Proof. vm_compute. repeat split. Qed.

Lemma batch_failure_isolation_witness :
  let Sv := faulty_services three_posts never never
              (at_tick 1 (Exception 429))
              (at_tick 7 (Exception 500, false)) in
  let r := @process_links Sv 3 1 three_links empty_world in
  let url := u "https://x.com/blog/entry/3" in
  let title := u "Third post" in
  outcomes (events r) = [Failed; Stored; Failed] /\
  res r = Ok tt /\ length (outcomes (events r)) = length three_links /\
  events r =
    events (@process_links Sv 3 1 (take 2 three_links) empty_world)
      ++ [Print (MsgChecking 3 3 title); CallGet url; Print MsgNewPost;
          CallEmbed title;
          CallUpsert url (blog_post_doc url title [(1 # 2)%Q]);
          Print (MsgFailed title (Exception 500))]
      ++ [].
Proof.
  intros Sv r url title. split; [vm_compute; reflexivity|].
  destruct (@batch_failure_isolation Sv 3 1 three_links empty_world)
    as (H1 & _ & _ & H4).
  split; [|split]; try (apply H1; intros t k _; reflexivity).
  assert (Hres : res (@process_links Sv 3 1 (take 2 three_links) empty_world)
                 = Ok tt) by (vm_compute; reflexivity).
  assert (Hlook : store (final (@process_links Sv 3 1 (take 2 three_links)
                                  empty_world)) !! url = None)
    by (vm_compute; reflexivity).
  destruct (H4 (take 2 three_links) url title [] eq_refl Hres eq_refl Hlook)
    as [_ Hwrite].
  destruct (Hwrite [(1 # 2)%Q] (Exception 500) false eq_refl eq_refl)
    as (_ & _ & Hev & _).
  exact Hev.
Defined.

(** C5, as stated, fails: the browser cannot be started, link discovery
    raises, and the scrape run ends normally with exit status 0. *)
Lemma render_failure_exits_normally :
  let Sv := faulty_services three_posts (fun _ => Some (Exception 1))
              never never never in
  let r := @main ascii_lib Sv x_com (mkArgs true None) empty_world in
  res (@discover_links ascii_lib Sv x_com empty_world) = Raise (Exception 1) /\
  res r = Ok tt /\ exit_status r = 0.
Proof. vm_compute. repeat split. Qed.

Lemma render_failure_swallowed_witness :
  let Sv := faulty_services three_posts (fun _ => Some (Exception 1))
              never never never in
  let r := @main ascii_lib Sv x_com (mkArgs true None) empty_world in
  res r = Ok tt /\ exit_status r = 0 /\
  store (final r) = store empty_world /\
  events r =
    Print MsgStartingScrape
      :: events (@discover_links ascii_lib Sv x_com empty_world)
      ++ [Print (MsgFetchError (Exception 1)); Print (MsgFoundLinks 0)].
Proof.
  intros Sv r.
  apply (@render_failure_swallowed ascii_lib Sv x_com (mkArgs true None)
           empty_world (Exception 1)).
  - reflexivity.
  - vm_compute. reflexivity.
Defined.

(** ** The round trip and the score *)

Lemma stored_record_round_trip_witness :
  let Sv := quiet_services [] in
  let url := u "https://x.com/blog/post/42" in
  let title := u "My New Post" in
  let w' := final (@store_embedding Sv url title [(1 # 2)%Q] empty_world) in
  exists d,
    res (@collection_get Sv url w') = Ok d /\
    d !! "title"%string = Some (VStr title) /\
    d !! "url"%string = Some (VStr url) /\
    d !! "type"%string = Some (VStr (u "blog_post")) /\
    forall score,
      events (@show_row Sv (mkRow url score) w') =
      [CallGet url;
       Print (MsgResult (VStr title) (VStr url)
                (py_round2 (fmul score 100)))].
Proof.
  intros Sv url title w'.
  apply (@stored_record_round_trip Sv url title [(1 # 2)%Q]
           empty_world w'); reflexivity.
Defined.

(** C9, as stated, fails: a hit with score 1.5 is joined and displayed
    with the score 150, above 100. *)
Lemma displayed_score_above_100 :
  let hit := mkRow (u "https://x.com/blog/post/1") (3 # 2)%Q in
  let shown := py_round2 (fmul (row_score hit) 100) in
  events (@show_row (quiet_services []) hit old_world) =
    [CallGet (row_id hit);
     Print (MsgResult (VStr (u "Old title"))
              (VStr (u "https://x.com/blog/post/1")) shown)] /\
  (shown == 150)%Q /\ ~ (0 <= shown <= 100)%Q.
Proof.
  split; [vm_compute; reflexivity|]. split; [vm_compute; reflexivity|].
  intros [_ H]. vm_compute in H. apply H. reflexivity.
Qed.

Lemma displayed_score_rounded_witness :
  let hit := mkRow (u "https://x.com/blog/post/1")
               (binary64 (8765 # 10000)) in
  let shown := py_round2 (fmul (row_score hit) 100) in
  events (@show_row (quiet_services []) hit old_world) =
    [CallGet (row_id hit);
     Print (MsgResult (VStr (u "Old title"))
              (VStr (u "https://x.com/blog/post/1")) shown)] /\
  (shown == binary64 (8765 # 100))%Q /\ (0 <= shown <= 100)%Q.
Proof.
  intros hit shown.
  destruct (@displayed_score_rounded (quiet_services []) hit
              old_world old_record) as [Hev Hrange];
    [vm_compute; reflexivity|].
  split; [exact Hev|]. split; [vm_compute; reflexivity|].
  apply Hrange.
  split; apply Qle_bool_iff; vm_compute; reflexivity.
Defined.

(** ** The classifier and the resolution of links *)

(** C2, as stated, fails: the first anchor meets every condition of the
    claim, yet it is not emitted, because resolving the href of the
    second anchor raises [ValueError] and link discovery then answers
    with no links at all. *)
Lemma classifier_drops_all_on_bad_href :
  let a := mkAnchor (Some (u "/blog/post/42")) (u "My New Post") true in
  broken_page !! 0 = Some a /\
  @spec_emits ascii_lib x_com a
    (u "https://x.com/blog/post/42", u "My New Post") /\
  @resolve ascii_lib x_com (u "//[") = Raise ValueError /\
  res (@classify_anchors ascii_lib x_com broken_page [] empty_world)
    = Raise ValueError /\
  res (@fetch_blog_links ascii_lib (quiet_services broken_page) x_com
         empty_world) = Ok [].
Proof.
  split; [reflexivity|]. split.
  - exists (u "/blog/post/42").
    repeat split; try (vm_compute; reflexivity); try discriminate.
    + vm_compute. lia.
    + left. vm_compute. reflexivity.
  - repeat split; vm_compute; reflexivity.
Qed.

Lemma classifier_emits_iff_witness :
  Forall (@resolvable ascii_lib x_com) scenario_page /\
  exists decisions : list (option (str * str)),
    res (@fetch_blog_links ascii_lib (quiet_services scenario_page) x_com
           empty_world)
      = Ok (omap (fun dec => dec) decisions) /\
    Forall2
      (fun a dec =>
         forall link, dec = Some link <-> @spec_emits ascii_lib x_com a link)
      scenario_page decisions.
Proof.
  assert (H : Forall (@resolvable ascii_lib x_com) scenario_page).
  { repeat constructor; intros href [= <-] Hskip;
      try (vm_compute in Hskip; discriminate);
      eexists; vm_compute; reflexivity. }
  split; [exact H|].
  apply (@classifier_emits_iff ascii_lib (quiet_services scenario_page) x_com
           empty_world scenario_page); try reflexivity. exact H.
Defined.

(** C7, as stated, fails: a protocol-relative href is not absolute for
    the classifier, and it resolves to the host it names, not to the
    base origin; the link is emitted. *)
Lemma protocol_relative_href_leaves_origin :
  let href := u "//evil.example/blog/post-1" in
  @module_init ascii_lib (Some (u "https://x.com/PostList.naver"))
    = Ok x_com /\
  (startswith (u "http://") href || startswith (u "https://") href) = false /\
  @resolve ascii_lib x_com href = Ok (u "https://evil.example/blog/post-1") /\
  anchored_at (@BASE_URL x_com) (u "https://evil.example/blog/post-1")
    = false /\
  res (@fetch_blog_links ascii_lib (quiet_services foreign_page) x_com
         empty_world)
    = Ok [(u "https://evil.example/blog/post-1", u "Elsewhere")].
Proof. repeat split; vm_compute; reflexivity. Qed.

Lemma relative_href_anchored_witness :
  @module_init ascii_lib (Some (u "https://x.com/PostList.naver"))
    = Ok x_com /\
  exists full_url,
    @resolve ascii_lib x_com (u "../blog/./post/42?page=2#top")
      = Ok full_url /\
    anchored_at (u "https" ++ u "://" ++ u "x.com") full_url = true.
Proof.
  assert (Hinit : @module_init ascii_lib
                    (Some (u "https://x.com/PostList.naver")) = Ok x_com)
    by (vm_compute; reflexivity).
  split; [exact Hinit|].
  apply (@relative_href_anchored ascii_lib x_com
           (u "https://x.com/PostList.naver")
           (u "../blog/./post/42?page=2#top")
           (UrlParse.mkParse (u "https") (u "x.com") (u "/PostList.naver")
              [] [] [])
           (UrlParse.mkParse (u "https") [] (u "../blog/./post/42") []
              (u "page=2") (u "top")) Hinit);
    try reflexivity; vm_compute; reflexivity.
Defined.

(** ** The further properties on concrete runs *)

Lemma search_presents_hits_witness :
  let r := search_blog_posts (Sv := search_services two_hits)
             (u "vector search") old_world in
  shown (events r) =
    [(VStr (u "Old title"), VStr (u "https://x.com/blog/post/1"),
      py_round2 (fmul (9 # 10) 100))] /\
  get_keys (events r) =
    [u "https://x.com/blog/post/1"; u "https://x.com/blog/gone"] /\
  length (shown (events r)) + length (not_fetched (events r)) = 2 /\
  List.last (events r) (Print MsgHelp) = Print (MsgTotal 2).
Proof.
  destruct (search_presents_hits (Sv := search_services two_hits)
              (u "vector search") old_world [(1 # 2)%Q]
              (mkSearchResult two_hits None (Ok 2)) eq_refl eq_refl)
    as (H1 & H2 & H3 & H4).
  split; [rewrite H1; vm_compute; reflexivity|].
  split; [rewrite H2; reflexivity|].
  split; [rewrite H3; reflexivity|].
  apply H4; reflexivity.
Defined.

Lemma displayed_score_monotone_witness :
  (py_round2 (fmul (1 # 2) 100) <= py_round2 (fmul (9 # 10) 100))%Q.
Proof.
  apply displayed_score_monotone. apply Qle_bool_iff. vm_compute. reflexivity.
Defined.

Lemma no_key_written_twice_witness :
  let r := scrape_and_store (L := ascii_lib)
             (Sv := quiet_services repeated_page) (C := x_com) empty_world in
  outcomes (events r) = [Stored; Skipped] /\
  NoDup (upsert_keys (events r)).
Proof.
  split; [vm_compute; reflexivity|].
  apply no_key_written_twice. intros t k e. discriminate.
Defined.

Lemma store_grows_by_stored_witness :
  let r := scrape_and_store (L := ascii_lib)
             (Sv := quiet_services three_posts) (C := x_com) old_world in
  outcomes (events r) = [Skipped; Stored; Stored] /\
  size (store (final r)) = size (store old_world) + 2.
Proof.
  intros r.
  assert (Ho : outcomes (events r) = [Skipped; Stored; Stored])
    by (vm_compute; reflexivity).
  split; [exact Ho|].
  change 2 with (stored_count [Skipped; Stored; Stored]). rewrite <- Ho.
  apply (store_grows_by_stored (L := ascii_lib)
           (Sv := quiet_services three_posts) (C := x_com) old_world).
  intros t k e. discriminate.
Defined.

Lemma scrape_keeps_store_well_formed_witness :
  let s' := store (final (scrape_and_store (L := ascii_lib)
                            (Sv := quiet_services three_posts) (C := x_com)
                            old_world)) in
  well_formed s' /\
  (forall k, is_Some (s' !! k) ->
     is_Some (store old_world !! k) \/ k ∈ List.map fst three_links).
Proof.
  destruct (scrape_keeps_store_well_formed (L := ascii_lib)
              (Sv := quiet_services three_posts) (C := x_com)
              old_world three_links) as [Hwf Hkeys];
    [vm_compute; reflexivity|].
  split; [|exact Hkeys].
  apply Hwf. intros k d Hk. unfold old_world in Hk. cbn [store] in Hk.
  apply lookup_singleton_Some in Hk as [<- <-].
  split; vm_compute; reflexivity.
Defined.

Lemma scrape_fails_only_on_lookup_witness :
  let r := main (L := ascii_lib) (Sv := no_embeddings three_posts)
             (C := x_com) (mkArgs true None) empty_world in
  outcomes (events r) = [Failed; Failed; Failed] /\
  res r = Ok tt /\ exit_status r = 0.
Proof.
  split; [vm_compute; reflexivity|].
  destruct (scrape_fails_only_on_lookup (L := ascii_lib)
              (Sv := no_embeddings three_posts) (C := x_com)
              (mkArgs true None) empty_world eq_refl) as [H _].
  apply H. intros t url _. reflexivity.
Defined.

Lemma progress_lines_numbered_witness :
  checking (events (scrape_and_store (L := ascii_lib)
                      (Sv := quiet_services three_posts) (C := x_com)
                      empty_world)) =
  [(1, 3, u "First post"); (2, 3, u "Second post"); (3, 3, u "Third post")].
Proof.
  rewrite (progress_lines_numbered (L := ascii_lib)
             (Sv := quiet_services three_posts) (C := x_com)
             empty_world three_links).
  - reflexivity.
  - vm_compute. reflexivity.
  - intros t url _. reflexivity.
Defined.

Lemma fetched_links_all_or_nothing_witness :
  exists (all_anchors : list anchor) (decisions : list (option (str * str))),
    all_anchors = scenario_page /\
    Forall (resolvable (L := ascii_lib) (C := x_com)) all_anchors /\
    [(u "https://x.com/blog/post/42", u "My New Post")]
      = omap (fun dec => dec) decisions /\
    Forall2
      (fun a dec =>
         forall link,
           dec = Some link <-> spec_emits (L := ascii_lib) (C := x_com) a link)
      all_anchors decisions.
Proof.
  destruct (fetched_links_all_or_nothing (L := ascii_lib)
              (Sv := quiet_services scenario_page) (C := x_com) empty_world
              [(u "https://x.com/blog/post/42", u "My New Post")])
    as (all_anchors & decisions & Hp & Hres & Hl & Hd).
  - vm_compute. reflexivity.
  - discriminate.
  - exists all_anchors, decisions. repeat split; try assumption.
    cbn in Hp. congruence.
Defined.

Lemma foreign_scheme_href_unchanged_witness :
  resolve (L := ascii_lib) (C := x_com) (u "mailto:me@x.com/blog/post")
    = Ok (u "mailto:me@x.com/blog/post").
Proof.
  apply (foreign_scheme_href_unchanged (L := ascii_lib) (C := x_com)
           (u "mailto:me@x.com/blog/post")
           (UrlParse.mkParse (u "https") (u "x.com") [] [] [] [])
           (UrlParse.mkParse (u "mailto") [] (u "me@x.com/blog/post")
              [] [] [])).
  - vm_compute. reflexivity.
  - vm_compute. discriminate.
  - vm_compute. reflexivity.
  - vm_compute. reflexivity.
  - left. vm_compute. discriminate.
Defined.

Lemma protocol_relative_href_keeps_host_witness :
  resolve (L := ascii_lib) (C := x_com) (u "//evil.example/blog/post-1")
    = Ok (u "https://evil.example/blog/post-1") /\
  anchored_at (u "https://evil.example") (u "https://evil.example/blog/post-1")
    = true.
Proof.
  destruct (protocol_relative_href_keeps_host (L := ascii_lib) (C := x_com)
              (u "//evil.example/blog/post-1")
              (UrlParse.mkParse (u "https") (u "x.com") [] [] [] [])
              (UrlParse.mkParse (u "https") (u "evil.example")
                 (u "/blog/post-1") [] [] []))
    as [H1 H2]; try (vm_compute; reflexivity).
  - repeat split; vm_compute; reflexivity.
  - split; [rewrite H1; vm_compute; reflexivity|].
    rewrite <- H2. vm_compute. reflexivity.
Defined.

Lemma base_url_is_bare_origin_witness :
  BASE_URL (Config := x_com) = u "https" ++ u "://" ++ u "x.com" /\
  UrlParse.urlparse (L := ascii_lib) (BASE_URL (Config := x_com)) [] =
  Ok (UrlParse.mkParse (u "https") (u "x.com") [] [] [] []).
Proof.
  apply (base_url_is_bare_origin (L := ascii_lib) (C := x_com)
           (u "https://x.com/PostList.naver")
           (UrlParse.mkParse (u "https") (u "x.com") (u "/PostList.naver")
              [] [] []));
    vm_compute; reflexivity.
Defined.

Lemma search_status_witness :
  let r := search_blog_posts (Sv := search_down) (u "vector search")
             empty_world in
  res r = Ok tt /\
  events r =
    [CallEmbed (u "vector search"); CallSearch [(1 # 2)%Q];
     Print (MsgSearchFailed (Exception 503))].
Proof.
  destruct (search_status (Sv := search_down) (u "vector search") empty_world)
    as (H1 & _ & H3).
  split; [rewrite H1; reflexivity|]. apply H3; reflexivity.
Defined.

Lemma store_embedding_one_key_witness :
  let url := u "https://x.com/blog/post/1" in
  let r := store_embedding (Sv := quiet_services []) url (u "New title")
             [(3 # 4)%Q] old_world in
  store old_world !! url = Some old_record /\
  store (final r) !! url = Some (blog_post_doc url (u "New title") [(3 # 4)%Q]).
Proof.
  intros url r. split; [apply lookup_singleton_eq|].
  destruct (store_embedding_one_key (Sv := quiet_services []) url
              (u "New title") [(3 # 4)%Q] old_world) as (_ & H & _).
  apply H. reflexivity.
Defined.

Lemma discovery_stops_at_first_failure_witness :
  fetch_blog_links (L := ascii_lib) (Sv := no_browser three_posts)
    (C := x_com) empty_world =
  mkRun (Ok []) (mkWorld ∅ 1)
    [CallChrome; Print (MsgWebDriverFailed (Exception 1));
     Print (MsgFetchError (Exception 1))].
Proof.
  apply (proj1 (discovery_stops_at_first_failure (L := ascii_lib)
                  (Sv := no_browser three_posts) (C := x_com) empty_world)).
  reflexivity.
Defined.

Lemma main_modes_exclusive_witness :
  let r := main (L := ascii_lib) (Sv := search_services two_hits)
             (C := x_com) (mkArgs false (Some (u "vector search")))
             old_world in
  store (final r) = store old_world /\ writes (events r) = [] /\
  List.filter is_fetch_event (events r) = [].
Proof.
  apply (proj2 (main_modes_exclusive (L := ascii_lib)
                  (Sv := search_services two_hits) (C := x_com)
                  (mkArgs false (Some (u "vector search"))) old_world)).
  reflexivity.
Defined.
